(** * Daily verse selection: a model of [app/services/selection.py]

    The relational store is modelled as two tables (lists of rows in storage
    order), the SQLAlchemy queries issued by [VerseSelector] as list
    operations on those tables, Python exceptions as an error result, and
    the selector's [random.Random] instance as an abstract random source
    threaded through the calls. *)

From Stdlib Require Import Ascii.
From stdpp Require Import gmap strings list sorting pretty.

#[local] Set Warnings "-clear-no-such-hyp".
Local Open Scope Z_scope.

(** ** Rows: [app/models/verse.py] and [app/models/daily_selection.py] *)

(** A [datetime.date] is represented by its proleptic ordinal. *)
Abbreviation date := Z.

Module Verse.
Record t := mk {
  id : Z;
  book : string;
  chapter : Z;
  verse : Z;
  text_kjv : string
}.
End Verse.

(** The [created_at] column is filled by the server clock and is read by
    none of the selection code; it is left out of the row. *)
Module DailySelection.
Record t := mk {
  id : Z;
  date : date;
  verse_id : Z
}.
End DailySelection.

#[global] Instance Verse_eq_dec : EqDecision Verse.t.
Proof. solve_decision. Defined.

#[global] Instance DailySelection_eq_dec : EqDecision DailySelection.t.
Proof. solve_decision. Defined.

(** ** The store behind a [Session] *)

Record Session := mkSession {
  verses : list Verse.t;
  daily_selections : list DailySelection.t
}.

(** [Session.scalar]: the first row of a result, [None] when it is empty. *)
Definition scalar {A} (rows : list A) : option A := head rows.

(** [select(DailySelection).where(DailySelection.date == target_date)] *)
Definition select_selection_by_date (s : Session) (target_date : date)
  : list DailySelection.t :=
  filter (λ r, DailySelection.date r = target_date) (daily_selections s).

(** [select(DailySelection.verse_id)] *)
Definition select_verse_ids (s : Session) : list Z :=
  DailySelection.verse_id <$> daily_selections s.

(** [order_by(DailySelection.date.desc())]: [a] may precede [b] when the
    date of [b] is not later than the date of [a]. *)
Definition date_desc (a b : DailySelection.t) : Prop :=
  DailySelection.date b ≤ DailySelection.date a.

#[global] Instance date_desc_dec : RelDecision date_desc.
Proof. intros a b. unfold date_desc. apply _. Defined.

Definition select_selections_by_date_desc (s : Session) : list DailySelection.t :=
  merge_sort date_desc (daily_selections s).

(** [select(Verse).where(Verse.id == i)] *)
Definition select_verse_by_id (s : Session) (i : Z) : list Verse.t :=
  filter (λ v, Verse.id v = i) (verses s).

(** A row of [select(Verse.id, Verse.book, Verse.chapter)]. *)
Module Meta.
Record t := mk {
  id : Z;
  book : string;
  chapter : Z
}.
End Meta.

#[global] Instance Meta_eq_dec : EqDecision Meta.t.
Proof. solve_decision. Defined.

Definition meta_of (v : Verse.t) : Meta.t :=
  Meta.mk (Verse.id v) (Verse.book v) (Verse.chapter v).

(** [select(Verse.id, Verse.book, Verse.chapter).where(~Verse.id.in_(used_ids))] *)
Definition select_unused (s : Session) (used_ids : gset Z) : list Meta.t :=
  meta_of <$> filter (λ v, Verse.id v ∉ used_ids) (verses s).

(** ** Exceptions *)

Inductive exn :=
| ValueError (msg : string)
| IntegrityError
| IndexError
| AssertionError.

Inductive result (A : Type) :=
| Ok (a : A)
| Raise (e : exn).
Arguments Ok {A} a.
Arguments Raise {A} e.

(** The error raised by [_pick_new_verse] when no unused verse is left. *)
Definition Exhausted : exn :=
  ValueError "All verses exhausted. Consider resetting or extending logic.".

(** ** Writing a selection: [db.add(selection); db.commit(); db.refresh(selection)]

    The [date] column is unique: the insert is refused with an
    [IntegrityError] when a row for that date is already stored.  The
    primary key of an accepted row is one more than the largest key in the
    table. *)
Definition next_id (rows : list DailySelection.t) : Z :=
  1 + foldr Z.max 0 (DailySelection.id <$> rows).

Definition add_commit (s : Session) (d : date) (vid : Z)
  : result DailySelection.t * Session :=
  if decide (d ∈ DailySelection.date <$> daily_selections s)
  then (Raise IntegrityError, s)
  else
    let selection := DailySelection.mk (next_id (daily_selections s)) d vid in
    (Ok selection,
     mkSession (verses s) (daily_selections s ++ [selection])).

(** ** The random source: [random.Random]

    [from_seed a] is the generator state after [Random(a)] for an integer
    [a]; [randbelow g n] is [_randbelow(n)], which returns an index below
    [n] and advances the generator. *)
Class RandomSource (G : Type) := {
  from_seed : Z → G;
  randbelow : G → nat → nat * G;
  randbelow_lt : ∀ g n, (0 < n)%nat → ((randbelow g n).1 < n)%nat
}.

Section selection.
Context {G : Type} `{RandomSource G}.

(** [random.Random(a)]: with [a = None] the state is drawn from the
    operating system's entropy, here the argument [os_entropy]. *)
Definition Random (a : option Z) (os_entropy : Z) : G :=
  match a with
  | Some n => from_seed n
  | None => from_seed os_entropy
  end.

(** [Random.choice(seq)] *)
Definition choice {A} (g : G) (seq : list A) : result A * G :=
  match seq with
  | [] => (Raise IndexError, g)
  | _ =>
    let '(i, g') := randbelow g (length seq) in
    match seq !! i with
    | Some x => (Ok x, g')
    | None => (Raise IndexError, g')
    end
  end.

(** ** [VerseSelector] *)

Record VerseSelector := mkSelector {
  db : Session;
  random : G
}.

(** Python's [x or y] on [int | None]: [x] when it is truthy, else [y];
    [None] and [0] are falsy. *)
Definition py_or (x y : option Z) : option Z :=
  match x with
  | Some n => if decide (n = 0) then y else Some n
  | None => y
  end.

(** [VerseSelector.__init__]; [settings_seed] is [settings.seed]. *)
Definition __init__ (settings_seed : option Z) (os_entropy : Z)
    (db : Session) (seed : option Z) : VerseSelector :=
  mkSelector db (Random (py_or seed settings_seed) os_entropy).

(** Computations of the selector: they read and write the store and the
    random source, and return a value or raise. *)
Definition M (A : Type) : Type := VerseSelector → result A * VerseSelector.

Definition ret {A} (a : A) : M A := λ self, (Ok a, self).

Definition raise {A} (e : exn) : M A := λ self, (Raise e, self).

Definition bind {A B} (m : M A) (k : A → M B) : M B :=
  λ self,
    match m self with
    | (Ok a, self') => k a self'
    | (Raise e, self') => (Raise e, self')
    end.

Notation "'let*' x ':=' m 'in' k" := (bind m (λ x, k))
  (at level 10, x name, m at level 100, k at level 200).

(** A query against [self.db]. *)
Definition query {A} (q : Session → A) : M A := λ self, (Ok (q (db self)), self).

(** [self.random.choice(pool)] *)
Definition random_choice {A} (pool : list A) : M A :=
  λ self,
    let '(r, g) := choice (random self) pool in
    (r, mkSelector (db self) g).

(** [self.db.add(selection); self.db.commit(); self.db.refresh(selection)] *)
Definition persist (d : date) (vid : Z) : M DailySelection.t :=
  λ self,
    let '(r, s) := add_commit (db self) d vid in
    (r, mkSelector s (random self)).

Definition _pick_new_verse : M Verse.t :=
  let* used_ids := query (λ s, list_to_set (select_verse_ids s) : gset Z) in
  let* last_selection := query (λ s, scalar (select_selections_by_date_desc s)) in
  let* last_chapter :=
    match last_selection with
    | Some last_selection =>
      let* last_verse :=
        query (λ s, scalar (select_verse_by_id s (DailySelection.verse_id last_selection))) in
      match last_verse with
      | Some last_verse => ret (Some (Verse.book last_verse, Verse.chapter last_verse))
      | None => ret None
      end
    | None => ret None
    end in
  let* candidates := query (λ s, select_unused s used_ids) in
  match candidates with
  | [] => raise Exhausted
  | _ =>
    let filtered :=
      filter (λ c, Some (Meta.book c, Meta.chapter c) ≠ last_chapter) candidates in
    let pool := match filtered with [] => candidates | _ => filtered end in
    let* choice_meta := random_choice pool in
    let* verse := query (λ s, scalar (select_verse_by_id s (Meta.id choice_meta))) in
    match verse with
    | Some verse => ret verse
    | None => raise AssertionError
    end
  end.

(** The values [_pick_new_verse] computes from the store, as functions of
    the store: [used_ids], [last_chapter], [candidates], [filtered] and
    [pool]. *)
Definition used_ids (s : Session) : gset Z := list_to_set (select_verse_ids s).

Definition last_selection (s : Session) : option DailySelection.t :=
  scalar (select_selections_by_date_desc s).

Definition group_of (v : Verse.t) : string * Z := (Verse.book v, Verse.chapter v).

Definition last_chapter (s : Session) : option (string * Z) :=
  match last_selection s with
  | Some ls =>
    match scalar (select_verse_by_id s (DailySelection.verse_id ls)) with
    | Some lv => Some (group_of lv)
    | None => None
    end
  | None => None
  end.

Definition candidates (s : Session) : list Meta.t := select_unused s (used_ids s).

Definition filtered (s : Session) : list Meta.t :=
  filter (λ c, Some (Meta.book c, Meta.chapter c) ≠ last_chapter s) (candidates s).

Definition pool (s : Session) : list Meta.t :=
  match filtered s with
  | [] => candidates s
  | _ => filtered s
  end.

(** The group of a candidate row. *)
Definition meta_group (c : Meta.t) : string * Z := (Meta.book c, Meta.chapter c).

(** The candidates outside a group [g]. *)
Definition outside (g : string * Z) (cs : list Meta.t) : list Meta.t :=
  filter (λ c, meta_group c ≠ g) cs.

Definition get_for_date (target_date : date) : M DailySelection.t :=
  let* existing := query (λ s, scalar (select_selection_by_date s target_date)) in
  match existing with
  | Some existing => ret existing
  | None =>
    let* verse := _pick_new_verse in
    let* selection := persist target_date (Verse.id verse) in
    ret selection
  end.

(** The row stored for a date, if any: the existence check of
    [get_for_date]. *)
Definition existing (s : Session) (target_date : date) : option DailySelection.t :=
  scalar (select_selection_by_date s target_date).

(** A caller resolving a sequence of dates, one call after the other, as
    [scripts/schedule_verses.py] and the tests do; each call's outcome is
    recorded. *)
Fixpoint get_for_dates (ds : list date) (self : VerseSelector)
  : list (result DailySelection.t) * VerseSelector :=
  match ds with
  | [] => ([], self)
  | d :: ds' =>
    let '(r, self1) := get_for_date d self in
    let '(rs, self2) := get_for_dates ds' self1 in
    (r :: rs, self2)
  end.

(** ** A second writer

    [get_for_date] runs its reads and its insert without a lock of its
    own.  [get_for_date_interleaved w] is the same call when another writer's
    transaction [w] commits to the store after the existence check and the
    pick, and before this call's own commit. *)
Definition other_writer (w : Session → Session) : M unit :=
  λ self, (Ok (), mkSelector (w (db self)) (random self)).

Definition get_for_date_interleaved (w : Session → Session) (target_date : date)
  : M DailySelection.t :=
  let* existing := query (λ s, scalar (select_selection_by_date s target_date)) in
  match existing with
  | Some existing => ret existing
  | None =>
    let* verse := _pick_new_verse in
    let* _ := other_writer w in
    let* selection := persist target_date (Verse.id verse) in
    ret selection
  end.

(** The other writer stores a row for date [d]. *)
Definition insert_for (d : date) (vid : Z) (s : Session) : Session :=
  (add_commit s d vid).2.

End selection.

Arguments VerseSelector G : clear implicits.

(** ** Store invariants kept by the schema *)

(** [Verse.id] is the primary key of [verses]. *)
Definition verse_ids_unique (s : Session) : Prop :=
  NoDup (Verse.id <$> verses s).

(** [DailySelection.date] is unique in [daily_selections]. *)
Definition dates_unique (s : Session) : Prop :=
  NoDup (DailySelection.date <$> daily_selections s).

(** ** Concrete data

    A small linear congruential generator stands in for the Mersenne
    Twister when the model is run on concrete inputs. *)
#[program] Instance lcg : RandomSource Z := {|
  from_seed a := Z.abs a;
  randbelow g n :=
    (Z.to_nat (g `mod` Z.of_nat n), (g * 1103515245 + 12345) `mod` 2147483648)
|}.
Next Obligation.
  intros g n Hn; simpl.
  pose proof (Z.mod_pos_bound g (Z.of_nat n)). lia.
Defined.

(** The catalog of [tests/test_selection.py]. *)
Definition test_catalog : list Verse.t :=
  [ Verse.mk 1 "Genesis" 1 1 "KJV G1:1";
    Verse.mk 2 "Genesis" 1 2 "KJV G1:2";
    Verse.mk 3 "Genesis" 2 1 "KJV G2:1";
    Verse.mk 4 "Exodus" 1 1 "KJV E1:1";
    Verse.mk 5 "Exodus" 1 2 "KJV E1:2" ].

Definition test_session : Session := mkSession test_catalog [].

(** [date(2024, 1, 1).toordinal()] *)
Definition base : date := 738886.

(** [VerseSelector(db, seed=123)] with the default [settings.seed = None]. *)
Definition test_selector : VerseSelector Z :=
  __init__ None 0 test_session (Some 123).

(** A store with a gap: verse 1 (Genesis 1) is stored for day 4 and verse 4
    (Exodus 1) for day 10; verses 2 (Genesis 1) and 5 (Exodus 1) are
    unused. *)
Definition backfill_session : Session :=
  mkSession
    [ Verse.mk 1 "Genesis" 1 1 "KJV G1:1";
      Verse.mk 2 "Genesis" 1 2 "KJV G1:2";
      Verse.mk 4 "Exodus" 1 1 "KJV E1:1";
      Verse.mk 5 "Exodus" 1 2 "KJV E1:2" ]
    [ DailySelection.mk 1 (base + 4) 1;
      DailySelection.mk 2 (base + 10) 4 ].

(** A store whose only unused verse shares the chapter of the latest
    selection: verse 1 was used on day 0 and verse 4 (Exodus 1) on day 1;
    verse 5 (Exodus 1) is left. *)
Definition fallback_session : Session :=
  mkSession
    [ Verse.mk 1 "Genesis" 1 1 "KJV G1:1";
      Verse.mk 4 "Exodus" 1 1 "KJV E1:1";
      Verse.mk 5 "Exodus" 1 2 "KJV E1:2" ]
    [ DailySelection.mk 1 base 1;
      DailySelection.mk 2 (base + 1) 4 ].

(** A catalog of one verse, used on day 0. *)
Definition single_session : Session :=
  mkSession
    [ Verse.mk 1 "Genesis" 1 1 "KJV G1:1" ]
    [ DailySelection.mk 1 base 1 ].

(** Five consecutive days from [base], as in the test. *)
Definition test_dates : list date := (λ i, base + i) <$> [0; 1; 2; 3; 4].

(** * The code around the selector *)

(** ** [Verse.ref]: the reference [f"{book} {chapter}:{verse}"]

    [pretty] on [Z] is Python's [str] on [int]: decimal digits, with a
    leading minus sign for a negative number. *)
Definition ref (v : Verse.t) : string :=
  Verse.book v +:+ " " +:+ pretty (Verse.chapter v) +:+ ":" +:+ pretty (Verse.verse v).

(** The characters [str] produces for an integer. *)
Definition numeral_char (c : ascii) : Prop :=
  c ∈ ["0"; "1"; "2"; "3"; "4"; "5"; "6"; "7"; "8"; "9"; "-"]%char.

(** The columns of the constraint [uq_book_chapter_verse]. *)
Definition verse_key (v : Verse.t) : string * Z * Z :=
  (Verse.book v, Verse.chapter v, Verse.verse v).

Definition verse_keys_unique (s : Session) : Prop :=
  NoDup (verse_key <$> verses s).

(** [DailySelection.id] is the primary key of [daily_selections]. *)
Definition selection_ids_unique (s : Session) : Prop :=
  NoDup (DailySelection.id <$> daily_selections s).

(** No verse is referenced by two stored selections. *)
Definition no_repeat (s : Session) : Prop :=
  NoDup (DailySelection.verse_id <$> daily_selections s).

(** Every stored selection references a row of [verses]. *)
Definition references_exist (s : Session) : Prop :=
  ∀ r, r ∈ daily_selections s →
       DailySelection.verse_id r ∈ Verse.id <$> verses s.

(** ** [app/api/routes.py]

    A JSON object is the list of its members in insertion order. *)
Abbreviation json := (list (string * string)).

Section routes.
Context {G : Type} `{RandomSource G}.

(** [VerseSelector.get_today]; [today] is [date.today()]. *)
Definition get_today (today : date) : @M G DailySelection.t :=
  get_for_date today.

(** [GET /verse/today].  The request's [Session] reads and writes the
    store [s]; [date_str] is [str] on a [datetime.date].  An exception of the
    selector leaves the handler. *)
Definition verse_today (date_str : date → string)
    (settings_seed : option Z) (os_entropy : Z) (today : date) (s : Session)
  : result json * Session :=
  let selector := __init__ settings_seed os_entropy s None in
  match get_for_date today selector with
  | (Raise e, selector') => (Raise e, db selector')
  | (Ok selection, selector') =>
    match scalar (select_verse_by_id (db selector')
                    (DailySelection.verse_id selection)) with
    | None => (Ok [("error", "verse not found")], db selector')
    | Some verse =>
      (Ok [("date", date_str (DailySelection.date selection));
           ("reference", ref verse);
           ("kjv", Verse.text_kjv verse)],
       db selector')
    end
  end.

End routes.

(** [GET /verse/random]: [select(Verse).order_by(func.random())];
    [order_by_random] is the order the database puts the rows in. *)
Definition verse_random (order_by_random : list Verse.t → list Verse.t)
    (s : Session) : json :=
  match scalar (order_by_random (verses s)) with
  | None => [("error", "no verses loaded")]
  | Some verse => [("reference", ref verse); ("kjv", Verse.text_kjv verse)]
  end.

(** ** [gui/manager.py]: the administrative statements

    [confirm] is the answer to the confirmation dialog. *)

(** [DELETE FROM daily_selections] *)
Definition reset_daily_selections (confirm : bool) (s : Session) : Session :=
  if confirm then mkSession (verses s) [] else s.

(** [DELETE FROM daily_selections; DELETE FROM verses] *)
Definition clear_all_verses (confirm : bool) (s : Session) : Session :=
  if confirm then mkSession [] [] else s.

(** ** [scripts/schedule_verses.py]: [generate] *)

(** Ordinals of [date.min] and [date.max]. *)
Definition date_min : date := 1.
Definition date_max : date := 3652059.

(** [d + timedelta(days=n)]: [None] stands for the [OverflowError] raised
    when the sum is not a date. *)
Definition date_add (d : date) (n : Z) : option date :=
  if decide (date_min ≤ d + n ≤ date_max) then Some (d + n) else None.

(** [range(n)] *)
Definition py_range (n : Z) : list Z := seqZ 0 n.

(** How [generate] ends: it returns, or an exception of the selector or
    the date arithmetic leaves it. *)
Inductive outcome :=
| Done
| Failed (e : exn)
| Overflow.

Section schedule.
Context {G : Type} `{RandomSource G}.

Notation "'let*' x ':=' m 'in' k" := (bind m (λ x, k))
  (at level 10, x name, m at level 100, k at level 200).

(** [db.delete(existing); db.commit()]: the row is deleted by its primary
    key. *)
Definition delete_commit (row : DailySelection.t) : M unit :=
  λ self : VerseSelector G,
    (Ok (),
     mkSelector
       (mkSession (verses (db self))
          (filter (λ r, DailySelection.id r ≠ DailySelection.id row)
             (daily_selections (db self))))
       (random self)).

(** The body of the loop of [generate] for one [target] date. *)
Definition schedule_day (overwrite : bool) (target : date) : @M G unit :=
  let* existing := query (λ s, scalar (select_selection_by_date s target)) in
  match existing, overwrite with
  | Some _, false => ret ()
  | _, _ =>
    let* _ :=
      match existing, overwrite with
      | Some row, true => delete_commit row
      | _, _ => ret ()
      end in
    let* _ := get_for_date target in
    ret ()
  end.

Fixpoint generate_loop (start : date) (overwrite : bool) (offsets : list Z)
    (self : VerseSelector G) : outcome * VerseSelector G :=
  match offsets with
  | [] => (Done, self)
  | offset :: offsets' =>
    match date_add start offset with
    | None => (Overflow, self)
    | Some target =>
      match schedule_day overwrite target self with
      | (Raise e, self') => (Failed e, self')
      | (Ok _, self') => generate_loop start overwrite offsets' self'
      end
    end
  end.

(** [generate(start, days, overwrite)] on the store [s]: the selector is
    built without a seed. *)
Definition generate (settings_seed : option Z) (os_entropy : Z) (s : Session)
    (start : date) (days : Z) (overwrite : bool) : outcome * Session :=
  let selector := __init__ settings_seed os_entropy s None in
  let '(o, selector') := generate_loop start overwrite (py_range days) selector in
  (o, db selector').

End schedule.

(** ** [scripts/load_verses.py]: [load_csv]

    The input is what [csv.DictReader] hands to the loop: the field names
    of the header ([None] for an empty file) and, for each record, the values
    under the four required names, [None] where the record is too short.
    [py_int] is Python's [int] on a string, [None] when it raises
    [ValueError].  [autoflush] is the setting of [SessionLocal], which
    [app/db/session.py] fixes.  The store is SQLite, the default
    [database_url]. *)
Module Row.
Record t := mk {
  book : option string;
  chapter : option string;
  verse : option string;
  text_kjv : option string
}.
End Row.

(** A [Verse(...)] object added to the session and not yet inserted. *)
Module Pending.
Record t := mk {
  book : option string;
  chapter : Z;
  verse : Z;
  text_kjv : option string
}.
End Pending.

Inductive load_exn :=
| ColumnsMissing        (* ValueError("CSV must contain columns: ...") *)
| IntTypeError          (* int(None) *)
| IntValueError         (* int(s) for a string that is no number *)
| StoreIntegrityError   (* NOT NULL or UNIQUE constraint failed *)
| StoreOverflowError.   (* an integer SQLite cannot hold *)

Definition required : list string := ["book"; "chapter"; "verse"; "text_kjv"].

(** The integers of an SQLite [INTEGER] column. *)
Definition int64 (z : Z) : Prop := -9223372036854775808 ≤ z ≤ 9223372036854775807.

Definition next_verse_id (rows : list Verse.t) : Z :=
  1 + foldr Z.max 0 (Verse.id <$> rows).

(** [INSERT INTO verses]: the columns are [NOT NULL], and
    [uq_book_chapter_verse] refuses a second row with the same book, chapter
    and verse. *)
Definition insert_verse (table : list Verse.t) (p : Pending.t)
  : option (list Verse.t) :=
  match Pending.book p, Pending.text_kjv p with
  | Some b, Some t =>
    if decide ((b, Pending.chapter p, Pending.verse p) ∈ verse_key <$> table)
    then None
    else Some (table ++ [Verse.mk (next_verse_id table) b (Pending.chapter p)
                           (Pending.verse p) t])
  | _, _ => None
  end.

(** A flush inserts the pending objects in the order they were added. *)
Fixpoint flush (table : list Verse.t) (pending : list Pending.t)
  : option (list Verse.t) :=
  match pending with
  | [] => Some table
  | p :: pending' =>
    match insert_verse table p with
    | Some table' => flush table' pending'
    | None => None
    end
  end.

(** [select(Verse).where(Verse.book == b, Verse.chapter == c,
    Verse.verse == v)]; a [None] book compares as [IS NULL]. *)
Definition select_verse_by_key (table : list Verse.t)
    (b : option string) (c v : Z) : list Verse.t :=
  filter (λ x, Some (Verse.book x) = b ∧ Verse.chapter x = c ∧ Verse.verse x = v)
    table.

Section loader.
Variable py_int : string → option Z.

(** [int(row[...])] *)
Definition int_field (x : option string) : load_exn + Z :=
  match x with
  | None => inl IntTypeError
  | Some str =>
    match py_int str with
    | Some z => inr z
    | None => inl IntValueError
    end
  end.

(** The loop over the records and the final [db.commit()].  [table] is
    the [verses] table as the transaction sees it, [pending] the objects
    added and not yet flushed, [count] is [count_inserted]. *)
Fixpoint load_rows (autoflush : bool) (rows : list Row.t)
    (table : list Verse.t) (pending : list Pending.t) (count : nat)
  : load_exn + (list Verse.t * nat) :=
  match rows with
  | [] =>
    match flush table pending with
    | Some table' => inr (table', count)
    | None => inl StoreIntegrityError
    end
  | row :: rows' =>
    match int_field (Row.chapter row) with
    | inl e => inl e
    | inr chapter =>
      match int_field (Row.verse row) with
      | inl e => inl e
      | inr verse =>
        match (if autoflush then flush table pending else Some table) with
        | None => inl StoreIntegrityError
        | Some table' =>
          let pending' := if autoflush then [] else pending in
          if decide (int64 chapter ∧ int64 verse) then
            match scalar (select_verse_by_key table' (Row.book row) chapter verse) with
            | Some _ => load_rows autoflush rows' table' pending' count
            | None =>
              load_rows autoflush rows' table'
                (pending' ++ [Pending.mk (Row.book row) chapter verse
                                (Row.text_kjv row)])
                (S count)
            end
          else inl StoreOverflowError
        end
      end
    end
  end.

(** [load_csv]: the result is [count_inserted], or the exception that
    leaves the function. *)
Definition load_csv (autoflush : bool) (fieldnames : option (list string))
    (rows : list Row.t) (s : Session) : (load_exn + nat) * Session :=
  if decide (Forall (λ c, c ∈ default [] fieldnames) required) then
    match load_rows autoflush rows (verses s) [] 0 with
    | inr (table, count) => (inr count, mkSession table (daily_selections s))
    | inl e => (inl e, s)
    end
  else (inl ColumnsMissing, s).

(** A record that is in the table: its fields are a book and two
    integers, and a verse with that book, chapter and verse is stored. *)
Definition row_stored (table : list Verse.t) (row : Row.t) : Prop :=
  ∃ b c v,
    Row.book row = Some b
    ∧ int_field (Row.chapter row) = inr c
    ∧ int_field (Row.verse row) = inr v
    ∧ int64 c ∧ int64 v
    ∧ (b, c, v) ∈ verse_key <$> table.

End loader.

(** Dropping the leading ["/"] of a list of characters. *)
Fixpoint dropwhile_slash (l : list ascii) : list ascii :=
  match l with
  | c :: l' => if decide (c = "/"%char) then dropwhile_slash l' else l
  | [] => []
  end.

(** ** [scripts/schedule_verses.py]: [export_csv] and [main] *)

(** A row of [select(DailySelection.date, Verse.book, Verse.chapter,
    Verse.verse, Verse.text_kjv)]. *)
Module Scheduled.
Record t := mk {
  date : date;
  book : string;
  chapter : Z;
  verse : Z;
  text_kjv : string
}.
End Scheduled.

(** [.join(Verse, DailySelection.verse_id == Verse.id)] *)
Definition join_verses (s : Session) : list Scheduled.t :=
  r ← daily_selections s;
  v ← select_verse_by_id s (DailySelection.verse_id r);
  [Scheduled.mk (DailySelection.date r) (Verse.book v) (Verse.chapter v)
     (Verse.verse v) (Verse.text_kjv v)].

(** [order_by(DailySelection.date)] *)
Definition date_asc (a b : Scheduled.t) : Prop :=
  Scheduled.date a ≤ Scheduled.date b.

#[global] Instance date_asc_dec : RelDecision date_asc.
Proof. intros a b. unfold date_asc. apply _. Defined.

Definition select_schedule (s : Session) : list Scheduled.t :=
  merge_sort date_asc (join_verses s).

(** The rows [export_csv] hands to [csv.writer]: the header, then one row
    per row of the query; [date_str] is [date.isoformat]. *)
Definition export_csv (date_str : date → string) (s : Session)
  : list (list string) :=
  ["date"; "reference"; "kjv"]
  :: ((λ r, [date_str (Scheduled.date r);
             Scheduled.book r +:+ " " +:+ pretty (Scheduled.chapter r)
               +:+ ":" +:+ pretty (Scheduled.verse r);
             Scheduled.text_kjv r])
      <$> select_schedule s).

(** [main] after the arguments are parsed: [generate], then [export_csv]
    when [generate] has returned. *)
Definition schedule_main {G} `{RandomSource G} (date_str : date → string)
    (settings_seed : option Z) (os_entropy : Z) (s : Session)
    (start : date) (days : Z) (overwrite : bool)
  : outcome * option (list (list string)) * Session :=
  match generate (G:=G) settings_seed os_entropy s start days overwrite with
  | (Done, s') => (Done, Some (export_csv date_str s'), s')
  | (o, s') => (o, None, s')
  end.

(** [gui/manager.py], [export_selections]: the button runs the schedule
    script with [--start 1900-01-01 --days 36500]. *)
Definition export_selections {G} `{RandomSource G} (date_str : date → string)
    (settings_seed : option Z) (os_entropy : Z) (s : Session)
  : outcome * option (list (list string)) * Session :=
  schedule_main (G:=G) date_str settings_seed os_entropy s 693596 36500 false.

(** ** [gui/main.py] *)

(** [dict] lookup by key. *)
Definition json_get (key : string) (data : json) : option string :=
  snd <$> scalar (filter (λ kv, kv.1 = key) data).

(** [display_verse]: the text put in the display; [None] stands for the
    [KeyError] of a missing member.  [now] is the formatted current time. *)
Definition display_verse (now : string) (verse_data : json) (title : string)
  : option string :=
  let content := title +:+ "
" in
  let content := content +:+ String.concat "" (replicate (String.length title) "=") +:+ "

" in
  let content :=
    match json_get "date" verse_data with
    | Some d => content +:+ "Date: " +:+ d +:+ "
"
    | None => content
    end in
  match json_get "reference" verse_data with
  | None => None
  | Some reference =>
    let content := content +:+ "Reference: " +:+ reference +:+ "

" in
    match json_get "kjv" verse_data with
    | None => None
    | Some kjv =>
      let content := content +:+ "KJV Text:
" +:+ kjv +:+ "

" in
      Some (content +:+ "Retrieved: " +:+ now +:+ "
")
    end
  end.

(** [str.rstrip('/')], as [save_settings] applies it to the API base
    URL. *)
Definition rstrip_slash (url : string) : string :=
  String.string_of_list_ascii
    (reverse (dropwhile_slash (reverse (String.list_ascii_of_string url)))).

(** ** [run_tests.py]

    The parsed command line, the interpreter path [sys.executable], and
    [run], the outcome of [subprocess.run] on a command: [true] for return
    code 0. *)
Module Args.
Record t := mk {
  all : bool;
  api : bool;
  gui : bool;
  database : bool;
  integration : bool;
  selection : bool;
  fast : bool;
  verbose : bool;
  coverage : bool
}.
End Args.

Definition base_cmd (executable : string) (args : Args.t) : list string :=
  let base_cmd := [executable; "-m"; "pytest"] in
  let base_cmd := if Args.verbose args then base_cmd ++ ["-v"] else base_cmd in
  let base_cmd :=
    if Args.fast args then base_cmd ++ ["-m"; "not slow"] else base_cmd in
  if Args.coverage args
  then base_cmd ++ ["--cov=app"; "--cov=gui"; "--cov-report=html"; "--cov-report=term"]
  else base_cmd.

(** [if args.<suite>: success &= run_command(base_cmd + [file], ...)] on
    the commands run so far and [success]. *)
Definition run_suite (base_cmd : list string) (run : list string → bool)
    (enabled : bool) (file : string) (acc : list (list string) * bool)
  : list (list string) * bool :=
  if enabled
  then (acc.1 ++ [base_cmd ++ [file]], acc.2 && run (base_cmd ++ [file]))
  else acc.

(** [run_tests.main]: the commands run, in order, and the exit status. *)
Definition run_tests_main (executable : string) (run : list string → bool)
    (args : Args.t) : list (list string) * Z :=
  let base_cmd := base_cmd executable args in
  let '(commands, success) :=
    if Args.all args
       || negb (Args.api args || Args.gui args || Args.database args
                || Args.integration args || Args.selection args)
    then ([base_cmd ++ ["tests/"]], run (base_cmd ++ ["tests/"]))
    else
      run_suite base_cmd run (Args.selection args) "tests/test_selection.py"
        (run_suite base_cmd run (Args.integration args) "tests/test_integration.py"
           (run_suite base_cmd run (Args.database args) "tests/test_database.py"
              (run_suite base_cmd run (Args.gui args) "tests/test_gui.py"
                 (run_suite base_cmd run (Args.api args) "tests/test_api.py"
                    ([], true)))))
  in
  (commands, if success then 0 else 1).

(** ** Concrete data for the code around the selector *)

(** A reader of plain decimal numerals stands in for [int] when the loader
    is run on concrete records. *)
Fixpoint decimal_go (str : string) (acc : Z) : option Z :=
  match str with
  | EmptyString => Some acc
  | String c str' =>
    match Ascii.is_nat c with
    | Some n => decimal_go str' (10 * acc + Z.of_nat n)
    | None => None
    end
  end.

Definition decimal (str : string) : option Z :=
  match str with
  | EmptyString => None
  | _ => decimal_go str 0
  end.

(** Two records of a file with the header [book,chapter,verse,text_kjv]. *)
Definition test_rows : list Row.t :=
  [ Row.mk (Some "Genesis") (Some "1") (Some "1") (Some "KJV G1:1");
    Row.mk (Some "Psalms") (Some "23") (Some "1") (Some "KJV P23:1") ].

(** The ordinal as a numeral stands in for [date.isoformat]. *)
Definition ordinal_str (d : date) : string := pretty d.

(** A store whose selection for day 0 references a verse that is gone. *)
Definition stale_session : Session :=
  mkSession
    [ Verse.mk 1 "Genesis" 1 1 "KJV G1:1" ]
    [ DailySelection.mk 1 base 7 ].

(** * Properties *)

(** ** Queries *)

Section query_facts.
Context {A : Type} (P : A → Prop) `{∀ x, Decision (P x)}.

Lemma scalar_filter_Some l x :
  scalar (filter P l) = Some x → P x ∧ x ∈ l.
Proof.
  unfold scalar. intros Hx. apply head_Some_elem_of in Hx.
  by apply list_elem_of_filter in Hx.
Qed.

Lemma scalar_filter_None l :
  scalar (filter P l) = None ↔ ∀ x, x ∈ l → ¬ P x.
Proof.
  unfold scalar. rewrite head_None. split.
  - intros Hnil x Hx HP. by eapply filter_nil_not_elem_of.
  - intros Hall. induction l as [|y l IH]; [done|].
    rewrite filter_cons_False by (apply Hall; left).
    apply IH. intros x Hx. apply Hall. by right.
Qed.

Lemma scalar_filter_is_Some l x :
  x ∈ l → P x → is_Some (scalar (filter P l)).
Proof.
  intros Hx HP. destruct (scalar (filter P l)) eqn:E; [by eexists|].
  rewrite scalar_filter_None in E. by destruct (E x).
Qed.

End query_facts.

(** A column without duplicates identifies its row. *)
Lemma NoDup_fmap_key {A B} (f : A → B) (l : list A) x y :
  NoDup (f <$> l) → x ∈ l → y ∈ l → f x = f y → x = y.
Proof.
  induction l as [|z l IH]; simpl; intros Hnd Hx Hy Hf.
  - by apply elem_of_nil in Hx.
  - apply NoDup_cons in Hnd as [Hz Hnd].
    apply elem_of_cons in Hx as [->|Hx]; apply elem_of_cons in Hy as [->|Hy];
      auto.
    + destruct Hz. rewrite Hf. by apply list_elem_of_fmap_2.
    + destruct Hz. rewrite <- Hf. by apply list_elem_of_fmap_2.
Qed.

Lemma existing_Some s d a :
  existing s d = Some a → a ∈ daily_selections s ∧ DailySelection.date a = d.
Proof.
  intros Hx. apply scalar_filter_Some in Hx. tauto.
Qed.

Lemma existing_None s d :
  existing s d = None ↔ d ∉ DailySelection.date <$> daily_selections s.
Proof.
  unfold existing, select_selection_by_date. rewrite scalar_filter_None.
  rewrite list_elem_of_fmap. split.
  - intros Hall (r & -> & Hr). by eapply Hall.
  - intros Hno r Hr Hd. apply Hno. by exists r.
Qed.

Lemma elem_of_candidates s c :
  c ∈ candidates s ↔
  ∃ v, c = meta_of v ∧ v ∈ verses s ∧ Verse.id v ∉ used_ids s.
Proof.
  unfold candidates, select_unused. rewrite list_elem_of_fmap. split.
  - intros (v & -> & Hv). apply list_elem_of_filter in Hv as [Hun Hv]. eauto.
  - intros (v & -> & Hv & Hun). exists v. split; [done|].
    by apply list_elem_of_filter.
Qed.

Lemma elem_of_used_ids s i :
  i ∈ used_ids s ↔ ∃ r, r ∈ daily_selections s ∧ DailySelection.verse_id r = i.
Proof.
  unfold used_ids, select_verse_ids.
  rewrite elem_of_list_to_set, list_elem_of_fmap. split.
  - intros (r & -> & Hr). eauto.
  - intros (r & Hr & <-). eauto.
Qed.

Lemma filtered_subseteq s : filtered s ⊆ candidates s.
Proof. intros c Hc. apply list_elem_of_filter in Hc. tauto. Qed.

Lemma pool_subseteq s : pool s ⊆ candidates s.
Proof.
  unfold pool. destruct (filtered s) eqn:E; [done|].
  rewrite <- E. apply filtered_subseteq.
Qed.

Lemma pool_nil s : pool s = [] ↔ candidates s = [].
Proof.
  unfold pool. destruct (filtered s) eqn:E; [done|].
  split; [done|]. intros Hc. revert E. unfold filtered. by rewrite Hc.
Qed.

(** A candidate's identity is found in the [verses] table. *)
Lemma candidate_lookup s c :
  c ∈ candidates s →
  ∃ v, scalar (select_verse_by_id s (Meta.id c)) = Some v
       ∧ Verse.id v = Meta.id c ∧ v ∈ verses s ∧ Verse.id v ∉ used_ids s.
Proof.
  rewrite elem_of_candidates. intros (v0 & -> & Hv0 & Hun). simpl.
  destruct (scalar_filter_is_Some (λ v, Verse.id v = Verse.id v0) (verses s) v0)
    as [v Hv]; [done..|].
  exists v. split; [done|].
  apply scalar_filter_Some in Hv as [Hid Hin]. by rewrite Hid.
Qed.

(** Under the primary key, the row found for a candidate is the candidate's
    own row. *)
Lemma candidate_lookup_unique s c v :
  verse_ids_unique s → c ∈ candidates s →
  scalar (select_verse_by_id s (Meta.id c)) = Some v → c = meta_of v.
Proof.
  intros Hnd Hc Hv. apply elem_of_candidates in Hc as (v0 & -> & Hv0 & _).
  apply scalar_filter_Some in Hv as [Hid Hin]. simpl in Hid.
  f_equal. by eapply (NoDup_fmap_key Verse.id).
Qed.

(** ** The selector, step by step *)

Section selector_facts.
Context {G : Type} `{RandomSource G}.
Implicit Types (self : VerseSelector G) (d : date).

Lemma choice_ok {A} (g : G) (seq : list A) :
  seq ≠ [] →
  ∃ x, choice g seq = (Ok x, (randbelow g (length seq)).2) ∧ x ∈ seq.
Proof.
  intros Hne. unfold choice.
  destruct seq as [|a seq']; [done|]. set (seq := a :: seq') in *.
  pose proof (randbelow_lt g (length seq)) as Hlt.
  destruct (randbelow g (length seq)) as [i g'] eqn:E; simpl in *.
  destruct (lookup_lt_is_Some_2 seq i) as [x Hx]; [apply Hlt; lia|].
  exists x. rewrite Hx. split; [done|]. by eapply list_elem_of_lookup_2.
Qed.

(** [_pick_new_verse] in terms of the candidate list and the pool. *)
Lemma pick_unfold self :
  _pick_new_verse self =
  match candidates (db self) with
  | [] => (Raise Exhausted, self)
  | _ =>
    match choice (random self) (pool (db self)) with
    | (Ok c, g') =>
      match scalar (select_verse_by_id (db self) (Meta.id c)) with
      | Some v => (Ok v, mkSelector (db self) g')
      | None => (Raise AssertionError, mkSelector (db self) g')
      end
    | (Raise e, g') => (Raise e, mkSelector (db self) g')
    end
  end.
Proof.
  unfold _pick_new_verse, bind, query, ret, raise, random_choice.
  unfold pool, filtered, candidates, last_chapter, last_selection, used_ids.
  destruct (scalar (select_selections_by_date_desc (db self))) as [ls|]; simpl.
  - destruct (scalar (select_verse_by_id (db self) (DailySelection.verse_id ls)))
      as [lv|]; simpl.
    + destruct (select_unused _ _) as [|c cs]; [done|].
      destruct (choice _ _) as [[c'|e] g']; simpl; [|done].
      by destruct (scalar _).
    + destruct (select_unused _ _) as [|c cs]; [done|].
      destruct (choice _ _) as [[c'|e] g']; simpl; [|done].
      by destruct (scalar _).
  - destruct (select_unused _ _) as [|c cs]; [done|].
    destruct (choice _ _) as [[c'|e] g']; simpl; [|done].
    by destruct (scalar _).
Qed.

Lemma pick_exhausted self :
  candidates (db self) = [] → _pick_new_verse self = (Raise Exhausted, self).
Proof. intros Hc. by rewrite pick_unfold, Hc. Qed.

(** With a candidate left, the pick succeeds: it returns the row of a member
    of the pool, and only the random source has moved. *)
Lemma pick_ok self :
  candidates (db self) ≠ [] →
  ∃ c v,
    c ∈ pool (db self)
    ∧ scalar (select_verse_by_id (db self) (Meta.id c)) = Some v
    ∧ Verse.id v = Meta.id c
    ∧ _pick_new_verse self =
      (Ok v, mkSelector (db self)
               (randbelow (random self) (length (pool (db self)))).2).
Proof.
  intros Hne. rewrite pick_unfold.
  destruct (candidates (db self)) as [|c0 cs] eqn:Ec; [done|].
  assert (Hp : pool (db self) ≠ []) by (rewrite pool_nil, Ec; done).
  destruct (choice_ok (random self) _ Hp) as (c & -> & Hc).
  destruct (candidate_lookup (db self) c) as (v & Hv & Hid & _).
  { by apply pool_subseteq. }
  exists c, v. by rewrite Hv.
Qed.

Lemma add_commit_fresh s d vid :
  d ∉ DailySelection.date <$> daily_selections s →
  add_commit s d vid =
  (Ok (DailySelection.mk (next_id (daily_selections s)) d vid),
   mkSession (verses s)
     (daily_selections s ++ [DailySelection.mk (next_id (daily_selections s)) d vid])).
Proof. intros Hd. unfold add_commit. by rewrite decide_False. Qed.

Lemma add_commit_conflict s d vid :
  d ∈ DailySelection.date <$> daily_selections s →
  add_commit s d vid = (Raise IntegrityError, s).
Proof. intros Hd. unfold add_commit. by rewrite decide_True. Qed.

(** The three ways through [get_for_date]. *)
Lemma get_for_date_existing self d a :
  existing (db self) d = Some a → get_for_date d self = (Ok a, self).
Proof.
  intros Hx. unfold get_for_date, bind, query, ret. unfold existing in Hx.
  by rewrite Hx.
Qed.

Lemma get_for_date_exhausted self d :
  existing (db self) d = None → candidates (db self) = [] →
  get_for_date d self = (Raise Exhausted, self).
Proof.
  intros Hx Hc. unfold get_for_date, bind, query, ret. unfold existing in Hx.
  rewrite Hx. by rewrite pick_exhausted.
Qed.

Lemma get_for_date_new self d :
  existing (db self) d = None → candidates (db self) ≠ [] →
  ∃ c v,
    c ∈ pool (db self)
    ∧ scalar (select_verse_by_id (db self) (Meta.id c)) = Some v
    ∧ Verse.id v = Meta.id c
    ∧ let row := DailySelection.mk (next_id (daily_selections (db self))) d (Meta.id c) in
      get_for_date d self =
      (Ok row,
       mkSelector
         (mkSession (verses (db self)) (daily_selections (db self) ++ [row]))
         (randbelow (random self) (length (pool (db self)))).2).
Proof.
  intros Hx Hc. destruct (pick_ok self Hc) as (c & v & Hp & Hv & Hid & Hpick).
  exists c, v. repeat split; try done. simpl.
  unfold get_for_date, bind, query, ret, persist.
  pose proof Hx as Hx'. unfold existing in Hx'. rewrite Hx', Hpick. simpl.
  apply existing_None in Hx. rewrite (add_commit_fresh _ _ _ Hx).
  by rewrite Hid.
Qed.

End selector_facts.

(** ** The most recent selection *)

#[global] Instance date_desc_transitive : Transitive date_desc.
Proof. unfold date_desc. intros a b c ??. lia. Qed.

#[global] Instance date_desc_total : Total date_desc.
Proof. unfold date_desc. intros a b. lia. Qed.

(** The first row in descending date order is stored and no stored row is
    dated later. *)
Lemma last_selection_latest s ls :
  last_selection s = Some ls →
  ls ∈ daily_selections s
  ∧ ∀ r, r ∈ daily_selections s → DailySelection.date r ≤ DailySelection.date ls.
Proof.
  unfold last_selection, scalar, select_selections_by_date_desc.
  intros [rest Hsort]%head_Some.
  pose proof (merge_sort_Permutation date_desc (daily_selections s)) as Hperm.
  pose proof (StronglySorted_merge_sort date_desc (daily_selections s)) as Hss.
  rewrite Hsort in Hperm, Hss. split.
  - rewrite <- Hperm. left.
  - intros r Hr. rewrite <- Hperm in Hr.
    apply StronglySorted_inv in Hss as [_ Hall].
    apply elem_of_cons in Hr as [->|Hr]; [done|].
    rewrite Forall_forall in Hall. by apply Hall.
Qed.

Lemma last_selection_None s :
  last_selection s = None ↔ daily_selections s = [].
Proof.
  unfold last_selection, scalar, select_selections_by_date_desc.
  rewrite head_None. split; intros Hnil.
  - apply Permutation_nil_r. rewrite <- Hnil.
    symmetry. apply merge_sort_Permutation.
  - by rewrite Hnil.
Qed.

(** With unique dates, the row with the maximum date is the one the pick
    reads. *)
Lemma last_selection_unique s latest :
  dates_unique s →
  latest ∈ daily_selections s →
  (∀ r, r ∈ daily_selections s →
        DailySelection.date r ≤ DailySelection.date latest) →
  last_selection s = Some latest.
Proof.
  intros Hnd Hin Hmax.
  destruct (last_selection s) as [ls|] eqn:E.
  - apply last_selection_latest in E as [Hls Hge]. f_equal.
    apply (NoDup_fmap_key DailySelection.date (daily_selections s)); auto.
    specialize (Hge _ Hin). specialize (Hmax _ Hls). lia.
  - apply last_selection_None in E. rewrite E in Hin.
    by apply elem_of_nil in Hin.
Qed.

Lemma last_chapter_latest s latest :
  dates_unique s →
  latest ∈ daily_selections s →
  (∀ r, r ∈ daily_selections s →
        DailySelection.date r ≤ DailySelection.date latest) →
  last_chapter s =
  group_of <$> scalar (select_verse_by_id s (DailySelection.verse_id latest)).
Proof.
  intros Hnd Hin Hmax. unfold last_chapter.
  rewrite (last_selection_unique s latest) by done.
  by destruct (scalar _).
Qed.

(** ** Reading a date that is already assigned *)

Section resolve.
Context {G : Type} `{RandomSource G}.
Implicit Types (self : VerseSelector G) (d : date).

(** C7. A call of [get_for_date] on a date that already has a stored
    selection is a pure read: it returns that stored row, and the selector
    afterwards is the selector before, so the store has no row added or
    changed and the random source has not been advanced. *)
Theorem get_for_date_pure_read self d :
  is_Some (existing (db self) d) →
  ∃ a, existing (db self) d = Some a
       ∧ get_for_date d self = (Ok a, self)
       ∧ db (get_for_date d self).2 = db self
       ∧ random (get_for_date d self).2 = random self.
Proof.
  intros [a Ha]. exists a.
  by rewrite (get_for_date_existing self d a Ha).
Qed.

(** After a successful call the row for the date is stored. *)
Lemma get_for_date_stored self d a self1 :
  get_for_date d self = (Ok a, self1) → existing (db self1) d = Some a.
Proof.
  intros Hcall. destruct (existing (db self) d) as [a0|] eqn:Ex.
  - rewrite (get_for_date_existing self d a0 Ex) in Hcall. congruence.
  - destruct (candidates (db self)) as [|c0 cs] eqn:Ec.
    + by rewrite get_for_date_exhausted in Hcall.
    + destruct (get_for_date_new self d Ex) as (c & v & _ & _ & _ & Hnew).
      { by rewrite Ec. }
      simpl in Hnew. rewrite Hnew in Hcall.
      injection Hcall as <- <-. simpl.
      unfold existing, select_selection_by_date in *; simpl.
      rewrite filter_app. unfold scalar in *.
      apply head_None in Ex. rewrite Ex. simpl.
      by rewrite filter_cons_True.
Qed.

(** C2. Idempotence: when [get_for_date d] returns a selection, a second
    call for the same date finds that selection stored and returns the very
    same row (same key, date and verse identity), leaving the selector as the
    first call left it. *)
Theorem get_for_date_idempotent self d a self1 :
  get_for_date d self = (Ok a, self1) →
  existing (db self1) d = Some a
  ∧ get_for_date d self1 = (Ok a, self1).
Proof.
  intros Hcall. apply get_for_date_stored in Hcall.
  split; [done|]. by apply get_for_date_existing.
Qed.

(** On an unassigned date every failure is the exhaustion error. *)
Lemma get_for_date_raise self d e :
  existing (db self) d = None →
  (get_for_date d self).1 = Raise e →
  e = Exhausted ∧ candidates (db self) = [].
Proof.
  intros Ex Hr. destruct (candidates (db self)) as [|c0 cs] eqn:Ec.
  - rewrite get_for_date_exhausted in Hr by done. simpl in Hr.
    split; congruence.
  - destruct (get_for_date_new self d Ex) as (c & v & _ & _ & _ & Hnew).
    { by rewrite Ec. }
    simpl in Hnew. by rewrite Hnew in Hr.
Qed.

(** C3. On a date without a stored selection, [get_for_date] raises the
    exhaustion error exactly when no verse is left unused, and in that case
    the selector is left as it was: no row is written. *)
Theorem get_for_date_exhausted_iff self d :
  existing (db self) d = None →
  ((get_for_date d self).1 = Raise Exhausted ↔ candidates (db self) = [])
  ∧ ((get_for_date d self).1 = Raise Exhausted → (get_for_date d self).2 = self).
Proof.
  intros Ex.
  assert (Hiff : (get_for_date d self).1 = Raise Exhausted
                 ↔ candidates (db self) = []).
  { split.
    - intros Hr. by destruct (get_for_date_raise self d _ Ex Hr).
    - intros Hc. by rewrite get_for_date_exhausted. }
  split; [done|].
  intros Hc%Hiff. by rewrite get_for_date_exhausted.
Qed.

End resolve.

(** ** The preference for a different chapter *)

Section diversity.
Context {G : Type} `{RandomSource G}.
Implicit Types (self : VerseSelector G) (d : date).

Lemma filtered_last_chapter s g :
  last_chapter s = Some g → filtered s = outside g (candidates s).
Proof.
  intros Hg. unfold filtered, outside. rewrite Hg.
  apply list_filter_iff. intros c. unfold meta_group.
  split; intros Hne; congruence.
Qed.

(** A new pick comes from the pool; it is stored for the date, and the
    store is otherwise as before. *)
Lemma get_for_date_new_inv self d a self1 :
  existing (db self) d = None →
  get_for_date d self = (Ok a, self1) →
  ∃ c v,
    c ∈ pool (db self)
    ∧ scalar (select_verse_by_id (db self) (Meta.id c)) = Some v
    ∧ Verse.id v = Meta.id c
    ∧ a = DailySelection.mk (next_id (daily_selections (db self))) d (Meta.id c)
    ∧ verses (db self1) = verses (db self)
    ∧ daily_selections (db self1) = daily_selections (db self) ++ [a].
Proof.
  intros Ex Hcall. destruct (candidates (db self)) as [|c0 cs] eqn:Ec.
  - by rewrite get_for_date_exhausted in Hcall.
  - destruct (get_for_date_new self d Ex) as (c & v & Hp & Hv & Hid & Hnew).
    { by rewrite Ec. }
    simpl in Hnew. rewrite Hnew in Hcall. injection Hcall as <- <-.
    by exists c, v.
Qed.

(** C6. Whatever the target date, a new pick is filtered against the group
    of the verse referenced by the stored selection with the maximum date:
    if [latest] is that selection and [lv] its verse, the row chosen for an
    unassigned date [d] is an unused verse, and it lies outside the group of
    [lv] whenever some unused verse does.  Nothing relates [d] to the date
    of [latest]; [d] may be earlier. *)
Theorem pick_compares_against_latest self d latest lv a self1 :
  dates_unique (db self) →
  latest ∈ daily_selections (db self) →
  (∀ r, r ∈ daily_selections (db self) →
        DailySelection.date r ≤ DailySelection.date latest) →
  scalar (select_verse_by_id (db self) (DailySelection.verse_id latest)) = Some lv →
  existing (db self) d = None →
  get_for_date d self = (Ok a, self1) →
  last_chapter (db self) = Some (group_of lv)
  ∧ ∃ c, c ∈ candidates (db self)
         ∧ Meta.id c = DailySelection.verse_id a
         ∧ (outside (group_of lv) (candidates (db self)) ≠ [] →
            meta_group c ≠ group_of lv).
Proof.
  intros Hnd Hin Hmax Hlv Ex Hcall.
  assert (Hlc : last_chapter (db self) = Some (group_of lv)).
  { rewrite (last_chapter_latest _ latest) by done. by rewrite Hlv. }
  split; [done|].
  destruct (get_for_date_new_inv self d a self1 Ex Hcall)
    as (c & v & Hp & _ & _ & -> & _).
  exists c. split; [by apply pool_subseteq|]. split; [done|].
  intros Hout. unfold pool in Hp.
  rewrite (filtered_last_chapter _ _ Hlc) in Hp.
  destruct (outside _ _) as [|c1 cs1] eqn:Eo; [done|].
  rewrite <- Eo in Hp. apply list_elem_of_filter in Hp. tauto.
Qed.

(** C4. Group diversity: let [latest] be the stored selection with the
    maximum date and [lv] its verse.  If some unused verse lies outside the
    group (book, chapter) of [lv], then resolving an unassigned date succeeds
    and the verse it stores for that date lies outside that group. *)
Theorem get_for_date_prefers_other_group self d latest lv :
  verse_ids_unique (db self) →
  dates_unique (db self) →
  latest ∈ daily_selections (db self) →
  (∀ r, r ∈ daily_selections (db self) →
        DailySelection.date r ≤ DailySelection.date latest) →
  scalar (select_verse_by_id (db self) (DailySelection.verse_id latest)) = Some lv →
  existing (db self) d = None →
  (∃ c, c ∈ candidates (db self) ∧ meta_group c ≠ group_of lv) →
  ∃ a v,
    (get_for_date d self).1 = Ok a
    ∧ existing (db (get_for_date d self).2) d = Some a
    ∧ scalar (select_verse_by_id (db (get_for_date d self).2)
                (DailySelection.verse_id a)) = Some v
    ∧ group_of v ≠ group_of lv.
Proof.
  intros Hpk Hnd Hin Hmax Hlv Ex (c0 & Hc0 & Hg0).
  assert (Hlc : last_chapter (db self) = Some (group_of lv)).
  { rewrite (last_chapter_latest _ latest) by done. by rewrite Hlv. }
  destruct (get_for_date_new self d Ex) as (c & v & Hp & Hv & Hid & Hnew).
  { intros Hnil. rewrite Hnil in Hc0. by apply elem_of_nil in Hc0. }
  simpl in Hnew. pose proof (get_for_date_stored _ _ _ _ Hnew) as Hst.
  rewrite Hnew. simpl in *.
  eexists _, v. split; [done|]. split; [exact Hst|]. split; [exact Hv|].
  assert (Hout : c ∈ outside (group_of lv) (candidates (db self))).
  { unfold pool in Hp. rewrite (filtered_last_chapter _ _ Hlc) in Hp.
    destruct (outside _ _) as [|c1 cs1] eqn:Eo; [|exact Hp].
    exfalso. apply (filter_nil_not_elem_of _ _ c0 Eo); done. }
  apply list_elem_of_filter in Hout as [Hg Hc].
  rewrite (candidate_lookup_unique _ c v Hpk Hc Hv) in Hg. done.
Qed.

(** C5. Diversity fallback: if some verse is unused and every unused verse
    is in the group of the verse of the latest selection, resolving an
    unassigned date still succeeds, and the verse it stores is an unused one
    from that group. *)
Theorem get_for_date_falls_back self d latest lv :
  dates_unique (db self) →
  latest ∈ daily_selections (db self) →
  (∀ r, r ∈ daily_selections (db self) →
        DailySelection.date r ≤ DailySelection.date latest) →
  scalar (select_verse_by_id (db self) (DailySelection.verse_id latest)) = Some lv →
  existing (db self) d = None →
  candidates (db self) ≠ [] →
  (∀ c, c ∈ candidates (db self) → meta_group c = group_of lv) →
  ∃ a v,
    (get_for_date d self).1 = Ok a
    ∧ existing (db (get_for_date d self).2) d = Some a
    ∧ scalar (select_verse_by_id (db (get_for_date d self).2)
                (DailySelection.verse_id a)) = Some v
    ∧ group_of v = group_of lv
    ∧ DailySelection.verse_id a ∉ used_ids (db self).
Proof.
  intros Hnd Hin Hmax Hlv Ex Hne Hall.
  destruct (get_for_date_new self d Ex Hne) as (c & v & Hp & Hv & Hid & Hnew).
  simpl in Hnew. pose proof (get_for_date_stored _ _ _ _ Hnew) as Hst.
  rewrite Hnew. simpl in *.
  eexists _, v. split; [done|]. split; [exact Hst|]. split; [exact Hv|]. split.
  - apply scalar_filter_Some in Hv as [Hidv Hvin].
    destruct (decide (Verse.id v ∈ used_ids (db self))) as [Hu|Hu].
    + apply pool_subseteq, elem_of_candidates in Hp as (v' & -> & _ & Hu').
      simpl in Hidv. by rewrite Hidv in Hu.
    + apply (Hall (meta_of v)). apply elem_of_candidates. eauto.
  - apply pool_subseteq, elem_of_candidates in Hp as (v' & -> & _ & Hu').
    done.
Qed.

End diversity.

(** ** No repeat until the catalog is exhausted *)

Lemma filter_unused_absent (U : gset Z) (l : list Verse.t) (i : Z) :
  i ∉ Verse.id <$> l →
  filter (λ w, Verse.id w ∉ U ∪ {[i]}) l = filter (λ w, Verse.id w ∉ U) l.
Proof.
  induction l as [|z l IH]; [done|]. simpl. intros Hi.
  apply not_elem_of_cons in Hi as [Hz Hi].
  rewrite !filter_cons, IH by done.
  apply decide_ext. set_solver.
Qed.

(** Marking one more unused verse as used removes exactly one row from the
    unused rows, because the identity is a key. *)
Lemma length_unused_insert (U : gset Z) (l : list Verse.t) (v : Verse.t) :
  NoDup (Verse.id <$> l) → v ∈ l → Verse.id v ∉ U →
  (length (filter (λ w, Verse.id w ∉ U ∪ {[Verse.id v]}) l) + 1
   = length (filter (λ w, Verse.id w ∉ U) l))%nat.
Proof.
  induction l as [|z l IH]; simpl; intros Hnd Hv HU.
  - by apply elem_of_nil in Hv.
  - apply NoDup_cons in Hnd as [Hz Hnd].
    apply elem_of_cons in Hv as [<-|Hv].
    + rewrite (filter_cons_False _ v) by set_solver.
      rewrite (filter_cons_True _ v) by done. simpl.
      rewrite Nat.add_1_r. f_equal. f_equal.
      by apply filter_unused_absent.
    + assert (Verse.id z ≠ Verse.id v).
      { intros Heq. apply Hz. rewrite Heq. by apply list_elem_of_fmap_2. }
      destruct (decide (Verse.id z ∈ U)) as [Hin|Hout].
      * rewrite !(filter_cons_False _ z) by set_solver. by apply IH.
      * rewrite !(filter_cons_True _ z) by set_solver. simpl.
        f_equal. by apply IH.
Qed.

Lemma used_ids_snoc vs sels a :
  used_ids (mkSession vs (sels ++ [a]))
  = used_ids (mkSession vs sels) ∪ {[DailySelection.verse_id a]}.
Proof.
  unfold used_ids, select_verse_ids; simpl.
  rewrite fmap_app, list_to_set_app_L. simpl. set_solver.
Qed.

Lemma candidates_fresh s :
  daily_selections s = [] → candidates s = meta_of <$> verses s.
Proof.
  intros Hnil. unfold candidates, select_unused, used_ids, select_verse_ids.
  rewrite Hnil. simpl. f_equal.
  induction (verses s) as [|v l IH]; [done|].
  rewrite filter_cons_True by set_solver. by rewrite IH.
Qed.

Section no_repeat.
Context {G : Type} `{RandomSource G}.
Implicit Types (self : VerseSelector G) (d : date).

(** One new pick uses up one candidate. *)
Lemma candidates_after_pick self d a self1 :
  verse_ids_unique (db self) →
  existing (db self) d = None →
  get_for_date d self = (Ok a, self1) →
  (DailySelection.verse_id a ∉ used_ids (db self))
  ∧ used_ids (db self1) = (used_ids (db self) ∪ {[DailySelection.verse_id a]})
  ∧ (length (candidates (db self1)) + 1 = length (candidates (db self)))%nat.
Proof.
  intros Hpk Ex Hcall.
  destruct (get_for_date_new_inv self d a self1 Ex Hcall)
    as (c & v & Hp & Hv & Hid & -> & Hvs & Hsels).
  apply pool_subseteq in Hp.
  destruct (candidate_lookup _ _ Hp) as (v' & Hv' & _ & Hin & Hun).
  assert (v' = v) as -> by congruence.
  simpl. rewrite <- Hid.
  assert (Hu : used_ids (db self1) = used_ids (db self) ∪ {[Verse.id v]}).
  { destruct self1 as [[vs1 sels1] g1], self as [[vs sels] g]; simpl in *.
    subst. rewrite used_ids_snoc. simpl. by rewrite Hid. }
  split; [done|]. split; [done|].
  unfold candidates, select_unused. rewrite !length_fmap, Hu, Hvs.
  by apply length_unused_insert.
Qed.

(** Resolving distinct unassigned dates, no more of them than there are
    unused verses: every call succeeds, the picks are pairwise distinct and
    none was used before, and each pick uses up one candidate. *)
Lemma get_for_dates_distinct ds :
  ∀ self,
    verse_ids_unique (db self) →
    NoDup ds →
    (∀ d, d ∈ ds → existing (db self) d = None) →
    (length ds ≤ length (candidates (db self)))%nat →
    ∃ picks self1,
      get_for_dates ds self = (Ok <$> picks, self1)
      ∧ DailySelection.date <$> picks = ds
      ∧ NoDup (DailySelection.verse_id <$> picks)
      ∧ (∀ a, a ∈ picks → DailySelection.verse_id a ∉ used_ids (db self))
      ∧ verses (db self1) = verses (db self)
      ∧ daily_selections (db self1) = daily_selections (db self) ++ picks
      ∧ (length (candidates (db self1)) + length ds
         = length (candidates (db self)))%nat.
Proof.
  induction ds as [|d ds IH]; intros self Hpk Hnd Hfresh Hlen.
  - exists [], self. simpl. rewrite app_nil_r.
    repeat split; auto using NoDup_nil_2. intros a Ha. by apply elem_of_nil in Ha.
  - apply NoDup_cons in Hnd as [Hd Hnd]. simpl in Hlen.
    assert (Ex : existing (db self) d = None) by (apply Hfresh; left).
    destruct (get_for_date_new self d Ex) as (c & v & _ & _ & _ & Hnew).
    { intros Hnil. rewrite Hnil in Hlen. simpl in Hlen. lia. }
    simpl in Hnew. set (a := DailySelection.mk _ d _) in Hnew.
    set (self1 := mkSelector _ _) in Hnew.
    destruct (candidates_after_pick self d a self1 Hpk Ex Hnew)
      as (Hun & Hu & Hcount).
    destruct (IH self1) as (picks & self2 & Hrun & Hdates & Hdist & Hnew' & Hvs & Hsels & Hcnt).
    + exact Hpk.
    + exact Hnd.
    + intros d' Hd'. apply existing_None. simpl.
      rewrite fmap_app, elem_of_app. simpl. intros [Hold|Hnow].
      * assert (Ex' : existing (db self) d' = None) by (apply Hfresh; by right).
        by apply existing_None in Ex'.
      * apply list_elem_of_singleton in Hnow. by subst.
    + lia.
    + exists (a :: picks), self2. cbn [get_for_dates]. rewrite Hnew, Hrun.
      rewrite !fmap_cons.
      split; [done|]. split; [by rewrite Hdates|]. split.
      { apply NoDup_cons. split; [|done].
        intros (a' & Heq & Ha')%list_elem_of_fmap.
        apply (Hnew' a' Ha'). rewrite Hu, <- Heq. set_solver. }
      split.
      { intros a' [->|Ha']%elem_of_cons; [done|].
        specialize (Hnew' a' Ha'). rewrite Hu in Hnew'. set_solver. }
      split; [done|]. split.
      { rewrite Hsels. simpl. by rewrite <- app_assoc. }
      rewrite length_cons. lia.
Qed.

(** C1. No repeat until exhaustion.  Take a catalog whose [N] verses have
    distinct identities and a store without selections, and resolve
    pairwise distinct dates, at most [N] of them, one after the other.  Every
    call succeeds, the selections returned are the selections stored, and
    they reference pairwise distinct verses.  Once [N] dates have been
    resolved, resolving any further date raises the exhaustion error. *)
Theorem no_repeat_until_exhaustion self ds :
  verse_ids_unique (db self) →
  daily_selections (db self) = [] →
  NoDup ds →
  (length ds ≤ length (verses (db self)))%nat →
  ∃ picks self1,
    get_for_dates ds self = (Ok <$> picks, self1)
    ∧ length picks = length ds
    ∧ DailySelection.date <$> picks = ds
    ∧ NoDup (DailySelection.verse_id <$> picks)
    ∧ daily_selections (db self1) = picks
    ∧ (length ds = length (verses (db self)) →
       ∀ d, d ∉ ds → (get_for_date d self1).1 = Raise Exhausted).
Proof.
  intros Hpk Hnil Hnd Hlen.
  pose proof (candidates_fresh _ Hnil) as Hc.
  destruct (get_for_dates_distinct ds self)
    as (picks & self1 & Hrun & Hdates & Hdist & _ & _ & Hsels & Hcnt); auto.
  { intros d _. apply existing_None. rewrite Hnil. apply not_elem_of_nil. }
  { by rewrite Hc, length_fmap. }
  exists picks, self1. rewrite Hnil in Hsels. simpl in Hsels.
  split; [done|]. split; [by rewrite <- Hdates, length_fmap|].
  split; [done|]. split; [done|]. split; [done|].
  intros HN d Hd. rewrite Hc, length_fmap in Hcnt.
  rewrite get_for_date_exhausted; [done| |].
  - apply existing_None. by rewrite Hsels, Hdates.
  - apply length_zero_iff_nil. lia.
Qed.

End no_repeat.

(** ** The schema invariants are kept *)

Section invariants.
Context {G : Type} `{RandomSource G}.
Implicit Types (self : VerseSelector G) (d : date).

Lemma get_for_date_keeps_invariants self d :
  verse_ids_unique (db self) → dates_unique (db self) →
  verse_ids_unique (db (get_for_date d self).2)
  ∧ dates_unique (db (get_for_date d self).2).
Proof.
  intros Hpk Hnd. destruct (existing (db self) d) as [a0|] eqn:Ex.
  - by rewrite (get_for_date_existing self d a0 Ex).
  - destruct (candidates (db self)) as [|c0 cs] eqn:Ec.
    + by rewrite get_for_date_exhausted.
    + destruct (get_for_date_new self d Ex) as (c & v & _ & _ & _ & Hnew).
      { by rewrite Ec. }
      simpl in Hnew. rewrite Hnew. simpl. split; [done|].
      unfold dates_unique. simpl. rewrite fmap_app. apply NoDup_app.
      split; [done|]. split; [|apply NoDup_singleton].
      intros d' Hd' ->%list_elem_of_singleton.
      by apply existing_None in Ex.
Qed.

End invariants.

(** ** Seeding *)

Section seeding.
Context {G : Type} `{RandomSource G}.
Implicit Types (self : VerseSelector G) (d : date).

(** A seed that survives [seed or settings.seed] fixes the generator: the
    selector built does not depend on the operating system's entropy. *)
Lemma seeded_init_deterministic settings_seed e1 e2 s seed :
  is_Some (py_or seed settings_seed) →
  __init__ settings_seed e1 s seed = __init__ settings_seed e2 s seed.
Proof. intros [n Hn]. unfold __init__. by rewrite Hn. Qed.

Lemma nonzero_seed_deterministic settings_seed e1 e2 s n ds :
  n ≠ 0 →
  get_for_dates ds (__init__ settings_seed e1 s (Some n))
  = get_for_dates ds (__init__ settings_seed e2 s (Some n)).
Proof.
  intros Hn. f_equal. apply seeded_init_deterministic.
  simpl. rewrite decide_False by done. by eexists.
Qed.

(** C10. A selector constructed with [seed=0] is the selector constructed
    without a seed: [0 or settings.seed] is [settings.seed].  The zero is
    replaced by the configured seed: with [settings.seed = k] the generator
    is [Random(k)], and with the default [settings.seed = None] it is the
    unseeded one.  Both selectors make the same choices on every sequence of
    calls.  Any other seed is kept, whatever is configured. *)
Theorem zero_seed_is_no_seed settings_seed os_entropy s :
  __init__ settings_seed os_entropy s (Some 0)
  = __init__ settings_seed os_entropy s None
  ∧ __init__ None os_entropy s (Some 0) = mkSelector s (Random None os_entropy)
  ∧ (∀ ds, get_for_dates ds (__init__ settings_seed os_entropy s (Some 0))
           = get_for_dates ds (__init__ settings_seed os_entropy s None))
  ∧ __init__ settings_seed os_entropy s (Some 0)
    = mkSelector s (Random settings_seed os_entropy)
  ∧ (∀ k, __init__ (Some k) os_entropy s (Some 0) = mkSelector s (from_seed k))
  ∧ __init__ None os_entropy s (Some 0) = mkSelector s (from_seed os_entropy)
  ∧ (∀ n, n ≠ 0 →
          __init__ settings_seed os_entropy s (Some n)
          = mkSelector s (from_seed n)).
Proof.
  do 6 (split; [done|]).
  intros n Hn. unfold __init__, py_or. by rewrite decide_False.
Qed.

End seeding.

(** C8, at the seed the constructor drops.  Two selectors built with
    [seed=0] under the default [settings.seed = None] on the same store are
    unseeded; run with different entropy they pick different verses for the
    same date. *)
Theorem zero_seed_not_reproducible :
  (get_for_date base (__init__ None 1 test_session (Some 0))).1
    = Ok (DailySelection.mk 1 base 2)
  ∧ (get_for_date base (__init__ None 2 test_session (Some 0))).1
    = Ok (DailySelection.mk 1 base 3).
Proof. by vm_compute. Qed.

(** ** A conflicting insert by a second writer *)

Section conflict.
Context {G : Type} `{RandomSource G}.
Implicit Types (self : VerseSelector G) (d : date).

(** Without a second writer the interleaved call is the call. *)
Lemma get_for_date_interleaved_id self d :
  get_for_date_interleaved id d self = get_for_date d self.
Proof.
  unfold get_for_date_interleaved, get_for_date, bind, query, ret, other_writer.
  destruct (scalar _); [done|].
  destruct (_pick_new_verse self) as [[v|e] [s g]]; done.
Qed.

(** C9, as the code has it.  When a second writer stores a selection for
    the target date after the existence check and the pick, the commit is
    refused and [get_for_date] does not handle the refusal: the
    [IntegrityError] reaches the caller, this call adds no row, and the store
    is the one the second writer left. *)
Theorem conflict_propagates self d w :
  existing (db self) d = None →
  candidates (db self) ≠ [] →
  is_Some (existing (w (db self)) d) →
  (get_for_date_interleaved w d self).1 = Raise IntegrityError
  ∧ db (get_for_date_interleaved w d self).2 = w (db self).
Proof.
  intros Ex Hc [a Ha].
  destruct (pick_ok self Hc) as (c & v & _ & _ & _ & Hpick).
  unfold get_for_date_interleaved, bind, query, ret, other_writer, persist.
  unfold existing in Ex. rewrite Ex, Hpick. simpl.
  rewrite add_commit_conflict; [done|].
  apply existing_Some in Ha as [Hin <-]. by apply list_elem_of_fmap_2.
Qed.

End conflict.

(** The conflict is not recovered from: a second writer stores verse 2 for
    the date while the call is under way; the call neither returns that
    row nor any other, it raises. *)
Lemma conflict_not_recovered :
  let w := insert_for base 2 in
  let r := get_for_date_interleaved w base test_selector in
  existing (db test_selector) base = None
  ∧ existing (db r.2) base = Some (DailySelection.mk 1 base 2)
  ∧ r.1 = Raise IntegrityError
  ∧ ¬ ∃ a, r.1 = Ok a.
Proof.
  vm_compute. repeat split; try done. by intros [a ?].
Qed.

(** ** Backfilling an earlier date

    In [backfill_session], resolving day 5 is compared against day 10, the
    latest date, not against day 4: whatever the random source, the pick is
    verse 2, in the group of the day before the target. *)
Example backfill_compares_against_latest {G} `{RandomSource G} (g : G) :
  (get_for_date (base + 5) (mkSelector backfill_session g)).1
  = Ok (DailySelection.mk 3 (base + 5) 2).
Proof.
  destruct (get_for_date_new (mkSelector backfill_session g) (base + 5))
    as (c & v & Hp & _ & _ & Hnew); [done|done|].
  simpl in Hnew. rewrite Hnew. simpl.
  assert (Hpool : pool backfill_session = [Meta.mk 2 "Genesis" 1])
    by (by vm_compute).
  simpl in Hp. rewrite Hpool in Hp. apply list_elem_of_singleton in Hp.
  by subst.
Qed.

(** ** The theorems at concrete stores *)

Ltac by_computation :=
  match goal with
  | |- ?P => apply (bool_decide_unpack P); vm_compute; exact I
  end.

Lemma no_repeat_until_exhaustion_witness :
  ∃ picks self1,
    get_for_dates test_dates test_selector = (Ok <$> picks, self1)
    ∧ length picks = length test_dates
    ∧ DailySelection.date <$> picks = test_dates
    ∧ NoDup (DailySelection.verse_id <$> picks)
    ∧ daily_selections (db self1) = picks
    ∧ (length test_dates = length (verses (db test_selector)) →
       ∀ d, d ∉ test_dates → (get_for_date d self1).1 = Raise Exhausted).
Proof.
  apply (no_repeat_until_exhaustion test_selector test_dates).
  - unfold verse_ids_unique. by_computation.
  - reflexivity.
  - by_computation.
  - vm_compute. lia.
Defined.

Lemma get_for_date_idempotent_witness :
  let a := DailySelection.mk 1 base 4 in
  let self1 := (get_for_date base test_selector).2 in
  existing (db self1) base = Some a ∧ get_for_date base self1 = (Ok a, self1).
Proof.
  apply (get_for_date_idempotent test_selector base). by vm_compute.
Defined.

Lemma get_for_date_exhausted_iff_witness :
  let self := mkSelector single_session (from_seed 123) in
  ((get_for_date (base + 1) self).1 = Raise Exhausted
   ↔ candidates (db self) = [])
  ∧ ((get_for_date (base + 1) self).1 = Raise Exhausted
     → (get_for_date (base + 1) self).2 = self).
Proof.
  apply (get_for_date_exhausted_iff (mkSelector single_session (from_seed 123))).
  reflexivity.
Defined.

Lemma get_for_date_prefers_other_group_witness :
  let self := mkSelector backfill_session (from_seed 123) in
  ∃ a v,
    (get_for_date (base + 5) self).1 = Ok a
    ∧ existing (db (get_for_date (base + 5) self).2) (base + 5) = Some a
    ∧ scalar (select_verse_by_id (db (get_for_date (base + 5) self).2)
                (DailySelection.verse_id a)) = Some v
    ∧ group_of v ≠ group_of (Verse.mk 4 "Exodus" 1 1 "KJV E1:1").
Proof.
  apply (get_for_date_prefers_other_group
           (mkSelector backfill_session (from_seed 123)) (base + 5)
           (DailySelection.mk 2 (base + 10) 4)).
  - unfold verse_ids_unique. by_computation.
  - unfold dates_unique. by_computation.
  - by_computation.
  - apply Forall_forall. by_computation.
  - reflexivity.
  - reflexivity.
  - exists (Meta.mk 2 "Genesis" 1). split; [by_computation|]. by vm_compute.
Defined.

Lemma get_for_date_falls_back_witness :
  let self := mkSelector fallback_session (from_seed 123) in
  ∃ a v,
    (get_for_date (base + 2) self).1 = Ok a
    ∧ existing (db (get_for_date (base + 2) self).2) (base + 2) = Some a
    ∧ scalar (select_verse_by_id (db (get_for_date (base + 2) self).2)
                (DailySelection.verse_id a)) = Some v
    ∧ group_of v = group_of (Verse.mk 4 "Exodus" 1 1 "KJV E1:1")
    ∧ DailySelection.verse_id a ∉ used_ids (db self).
Proof.
  apply (get_for_date_falls_back
           (mkSelector fallback_session (from_seed 123)) (base + 2)
           (DailySelection.mk 2 (base + 1) 4)).
  - unfold dates_unique. by_computation.
  - by_computation.
  - apply Forall_forall. by_computation.
  - reflexivity.
  - reflexivity.
  - by vm_compute.
  - apply Forall_forall. by_computation.
Defined.

Lemma pick_compares_against_latest_witness :
  let self := mkSelector backfill_session (from_seed 123) in
  let lv := Verse.mk 4 "Exodus" 1 1 "KJV E1:1" in
  last_chapter (db self) = Some (group_of lv)
  ∧ ∃ c, c ∈ candidates (db self)
         ∧ Meta.id c = 2
         ∧ (outside (group_of lv) (candidates (db self)) ≠ [] →
            meta_group c ≠ group_of lv).
Proof.
  apply (pick_compares_against_latest
           (mkSelector backfill_session (from_seed 123)) (base + 5)
           (DailySelection.mk 2 (base + 10) 4)
           (Verse.mk 4 "Exodus" 1 1 "KJV E1:1")
           (DailySelection.mk 3 (base + 5) 2)
           (get_for_date (base + 5)
              (mkSelector backfill_session (from_seed 123))).2).
  - unfold dates_unique. by_computation.
  - by_computation.
  - apply Forall_forall. by_computation.
  - reflexivity.
  - reflexivity.
  - by vm_compute.
Defined.

Lemma get_for_date_pure_read_witness :
  let self := mkSelector single_session (from_seed 123) in
  ∃ a, existing (db self) base = Some a
       ∧ get_for_date base self = (Ok a, self)
       ∧ db (get_for_date base self).2 = db self
       ∧ random (get_for_date base self).2 = random self.
Proof.
  apply (get_for_date_pure_read (mkSelector single_session (from_seed 123)) base).
  by eexists.
Defined.

Lemma conflict_propagates_witness :
  let w := insert_for base 2 in
  (get_for_date_interleaved w base test_selector).1 = Raise IntegrityError
  ∧ db (get_for_date_interleaved w base test_selector).2 = w (db test_selector).
Proof.
  apply (conflict_propagates test_selector base (insert_for base 2)).
  - reflexivity.
  - by vm_compute.
  - vm_compute. by eexists.
Defined.

(** * The code around the selector: properties *)

(** ** What a call of [get_for_date] does to the store *)

Lemma next_id_fresh rows r :
  r ∈ rows → DailySelection.id r < next_id rows.
Proof.
  unfold next_id. induction rows as [|r0 rows IH]; intros Hr.
  - by apply elem_of_nil in Hr.
  - rewrite fmap_cons. simpl.
    apply elem_of_cons in Hr as [->|Hr]; [lia|].
    specialize (IH Hr). lia.
Qed.

Section store_effects.
Context {G : Type} `{RandomSource G}.
Implicit Types (self : VerseSelector G) (d : date).

(** The two shapes of the store after a call: unchanged, or one row
    appended for a date that had none. *)
Lemma get_for_date_cases self d :
  (db (get_for_date d self).2 = db self
   ∧ ((∃ a, existing (db self) d = Some a ∧ (get_for_date d self).1 = Ok a)
      ∨ (existing (db self) d = None
         ∧ (get_for_date d self).1 = Raise Exhausted)))
  ∨ (∃ c v a,
       existing (db self) d = None
       ∧ c ∈ candidates (db self)
       ∧ scalar (select_verse_by_id (db self) (Meta.id c)) = Some v
       ∧ a = DailySelection.mk (next_id (daily_selections (db self))) d (Meta.id c)
       ∧ (get_for_date d self).1 = Ok a
       ∧ db (get_for_date d self).2
         = mkSession (verses (db self)) (daily_selections (db self) ++ [a])).
Proof.
  destruct (existing (db self) d) as [a0|] eqn:Ex.
  - left. rewrite (get_for_date_existing self d a0 Ex). eauto.
  - destruct (candidates (db self)) as [|c0 cs] eqn:Ec.
    + left. rewrite get_for_date_exhausted by done. eauto.
    + right. destruct (get_for_date_new self d Ex) as (c & v & Hp & Hv & _ & Hnew).
      { by rewrite Ec. }
      simpl in Hnew. rewrite Hnew. simpl.
      apply pool_subseteq in Hp. rewrite Ec in Hp.
      eexists c, v, _. by repeat split.
Qed.

Lemma get_for_date_prefix self d :
  verses (db (get_for_date d self).2) = verses (db self)
  ∧ ∃ new, daily_selections (db (get_for_date d self).2)
           = daily_selections (db self) ++ new
           ∧ (length new ≤ 1)%nat.
Proof.
  destruct (get_for_date_cases self d)
    as [[Hdb _]|(c & v & a & _ & _ & _ & _ & _ & Hdb)]; rewrite Hdb.
  - split; [done|]. exists []. split; [by rewrite app_nil_r|simpl; lia].
  - split; [done|]. exists [a]. split; [done|simpl; lia].
Qed.

Lemma get_for_date_no_repeat self d :
  no_repeat (db self) → no_repeat (db (get_for_date d self).2).
Proof.
  destruct (get_for_date_cases self d)
    as [[Hdb _]|(c & v & a & Ex & Hc & Hv & Ha & _ & Hdb)]; rewrite Hdb; [done|].
  unfold no_repeat. simpl. rewrite fmap_app. simpl.
  intros Hnd. apply NoDup_app. split; [done|]. split; [|apply NoDup_singleton].
  intros i (r & -> & Hr)%list_elem_of_fmap Hi%list_elem_of_singleton.
  apply elem_of_candidates in Hc as (v0 & -> & _ & Hun).
  apply Hun. apply elem_of_used_ids. exists r. split; [done|].
  by rewrite Hi, Ha.
Qed.

Lemma get_for_date_references self d :
  references_exist (db self) → references_exist (db (get_for_date d self).2).
Proof.
  destruct (get_for_date_cases self d)
    as [[Hdb _]|(c & v & a & Ex & Hc & Hv & Ha & _ & Hdb)]; rewrite Hdb; [done|].
  unfold references_exist. simpl.
  intros Href r [Hr| ->%list_elem_of_singleton]%elem_of_app; [by apply Href|].
  rewrite Ha. simpl.
  apply elem_of_candidates in Hc as (v0 & -> & Hv0 & _). simpl.
  by apply list_elem_of_fmap_2.
Qed.

Lemma get_for_date_selection_ids self d :
  selection_ids_unique (db self) →
  selection_ids_unique (db (get_for_date d self).2).
Proof.
  destruct (get_for_date_cases self d)
    as [[Hdb _]|(c & v & a & Ex & Hc & Hv & Ha & _ & Hdb)]; rewrite Hdb; [done|].
  unfold selection_ids_unique. simpl. rewrite fmap_app. simpl.
  intros Hnd. apply NoDup_app. split; [done|]. split; [|apply NoDup_singleton].
  intros i (r & -> & Hr)%list_elem_of_fmap Hi%list_elem_of_singleton.
  pose proof (next_id_fresh _ _ Hr) as Hlt. rewrite Ha in Hi. simpl in Hi. lia.
Qed.

Lemma get_for_date_dates self d :
  dates_unique (db self) → dates_unique (db (get_for_date d self).2).
Proof.
  destruct (get_for_date_cases self d)
    as [[Hdb _]|(c & v & a & Ex & Hc & Hv & Ha & _ & Hdb)]; rewrite Hdb; [done|].
  unfold dates_unique. simpl. rewrite fmap_app. simpl.
  intros Hnd. apply NoDup_app. split; [done|]. split; [|apply NoDup_singleton].
  intros d' Hd' ->%list_elem_of_singleton. apply existing_None in Ex.
  by rewrite Ha in Hd'.
Qed.

Lemma get_for_date_returned self d a self1 :
  get_for_date d self = (Ok a, self1) →
  a ∈ daily_selections (db self1) ∧ DailySelection.date a = d.
Proof. intros Hcall%get_for_date_stored. by apply existing_Some. Qed.

(** X1. [get_for_date] only ever appends: whatever the outcome, the
    [verses] table is untouched and the selections stored before are still
    stored, in place and unchanged; at most one row is added, and a row that
    is returned is stored and carries the requested date. *)
Theorem get_for_date_append_only self d :
  verses (db (get_for_date d self).2) = verses (db self)
  ∧ (∃ new, daily_selections (db (get_for_date d self).2)
            = daily_selections (db self) ++ new
            ∧ (length new ≤ 1)%nat)
  ∧ ∀ a, (get_for_date d self).1 = Ok a →
         a ∈ daily_selections (db (get_for_date d self).2)
         ∧ DailySelection.date a = d.
Proof.
  destruct (get_for_date_prefix self d) as [Hvs Hnew].
  split; [done|]. split; [done|].
  intros a Ha. apply (get_for_date_returned self d).
  destruct (get_for_date d self) as [r self1]. simpl in Ha. by subst.
Qed.

(** X2. [get_for_date] keeps each invariant of the [daily_selections]
    table: dates stay unique, primary keys stay unique, no verse becomes
    referenced twice, and references to [verses] stay valid. *)
Theorem get_for_date_keeps_selection_invariants self d :
  (dates_unique (db self) → dates_unique (db (get_for_date d self).2))
  ∧ (selection_ids_unique (db self) →
     selection_ids_unique (db (get_for_date d self).2))
  ∧ (no_repeat (db self) → no_repeat (db (get_for_date d self).2))
  ∧ (references_exist (db self) → references_exist (db (get_for_date d self).2)).
Proof.
  auto using get_for_date_dates, get_for_date_selection_ids,
    get_for_date_no_repeat, get_for_date_references.
Qed.

(** X3. Different days get different verses: in a store where no verse is
    referenced twice, the selections returned by [get_today] on two
    different days reference different verses. *)
Theorem get_today_distinct_days self day1 day2 a1 self1 a2 self2 :
  no_repeat (db self) →
  day1 ≠ day2 →
  get_today day1 self = (Ok a1, self1) →
  get_today day2 self1 = (Ok a2, self2) →
  DailySelection.verse_id a1 ≠ DailySelection.verse_id a2.
Proof.
  unfold get_today. intros Hnr Hne H1 H2 Heq.
  destruct (get_for_date_returned _ _ _ _ H1) as [Ha1 Hd1].
  destruct (get_for_date_returned _ _ _ _ H2) as [Ha2 Hd2].
  pose proof (get_for_date_prefix self1 day2) as (_ & new & Hnew & _).
  pose proof (get_for_date_no_repeat self day1 Hnr) as Hnr1.
  rewrite H1 in Hnr1. simpl in Hnr1.
  pose proof (get_for_date_no_repeat self1 day2 Hnr1) as Hnr2.
  rewrite H2 in Hnr2, Hnew. simpl in *.
  assert (a1 = a2) as ->; [|congruence].
  apply (NoDup_fmap_key DailySelection.verse_id (daily_selections (db self2)));
    auto.
  rewrite Hnew. apply elem_of_app. by left.
Qed.

End store_effects.

(** ** References *)

(** The characters of a string. *)
Lemma chars_app (s1 s2 : string) :
  String.list_ascii_of_string (s1 +:+ s2)
  = String.list_ascii_of_string s1 ++ String.list_ascii_of_string s2.
Proof. induction s1 as [|c s1 IH]; simpl; [done|]. by rewrite IH. Qed.

Lemma chars_inj (s1 s2 : string) :
  String.list_ascii_of_string s1 = String.list_ascii_of_string s2 → s1 = s2.
Proof.
  intros Heq. rewrite <- (String.string_of_list_ascii_of_string s1),
    <- (String.string_of_list_ascii_of_string s2). by rewrite Heq.
Qed.

Lemma pretty_N_char_numeral x : numeral_char (pretty_N_char x).
Proof.
  unfold numeral_char, pretty_N_char.
  repeat case_match; set_solver.
Qed.

Lemma pretty_N_go_numeral x s :
  Forall numeral_char (String.list_ascii_of_string s) →
  Forall numeral_char (String.list_ascii_of_string (pretty_N_go x s)).
Proof.
  revert s. induction (N.lt_wf_0 x) as [x _ IH]; intros s Hs.
  assert (x = 0 ∨ 0 < x)%N as [->|Hpos] by lia.
  - by rewrite pretty_N_go_0.
  - rewrite pretty_N_go_step by done. apply IH.
    { by apply N.div_lt. }
    simpl. constructor; [apply pretty_N_char_numeral|done].
Qed.

Lemma pretty_N_numeral (x : N) :
  Forall numeral_char (String.list_ascii_of_string (pretty x)).
Proof.
  unfold pretty, pretty_N. case_decide.
  - repeat constructor.
  - apply pretty_N_go_numeral. constructor.
Qed.

Lemma pretty_Z_numeral (x : Z) :
  Forall numeral_char (String.list_ascii_of_string (pretty x)).
Proof.
  unfold pretty, pretty_Z. destruct x as [|p|p].
  - repeat constructor.
  - apply pretty_N_numeral.
  - rewrite chars_app. apply Forall_app. split.
    + repeat constructor.
    + apply pretty_N_numeral.
Qed.

Lemma numeral_no_colon (x : Z) : ":"%char ∉ String.list_ascii_of_string (pretty x).
Proof.
  intros Hin. pose proof (pretty_Z_numeral x) as Hall.
  rewrite Forall_forall in Hall. specialize (Hall _ Hin).
  unfold numeral_char in Hall. set_solver.
Qed.

Lemma numeral_no_space (x : Z) : " "%char ∉ String.list_ascii_of_string (pretty x).
Proof.
  intros Hin. pose proof (pretty_Z_numeral x) as Hall.
  rewrite Forall_forall in Hall. specialize (Hall _ Hin).
  unfold numeral_char in Hall. set_solver.
Qed.

(** Cutting a list at the last occurrence of a separator. *)
Lemma split_at_last {A} (x : A) (l1 l2 r1 r2 : list A) :
  x ∉ r1 → x ∉ r2 → l1 ++ x :: r1 = l2 ++ x :: r2 → l1 = l2 ∧ r1 = r2.
Proof.
  intros H1 H2. revert l2. induction l1 as [|a l1 IH]; intros [|b l2] Heq;
    simpl in Heq.
  - by injection Heq.
  - injection Heq as -> ->. destruct H1. apply elem_of_app. right. left.
  - injection Heq as -> <-. destruct H2. apply elem_of_app. right. left.
  - injection Heq as -> Heq. destruct (IH _ Heq) as [-> ->]. done.
Qed.

Lemma ref_chars v :
  String.list_ascii_of_string (ref v)
  = (String.list_ascii_of_string (Verse.book v)
     ++ " "%char :: String.list_ascii_of_string (pretty (Verse.chapter v)))
    ++ ":"%char :: String.list_ascii_of_string (pretty (Verse.verse v)).
Proof.
  unfold ref. rewrite !chars_app. simpl. by rewrite <- app_assoc.
Qed.

Lemma ref_key v1 v2 :
  ref v1 = ref v2 → verse_key v1 = verse_key v2.
Proof.
  unfold verse_key. intros Heq.
  apply (f_equal String.list_ascii_of_string) in Heq.
  rewrite !ref_chars in Heq.
  apply split_at_last in Heq as [Heq Hv]; [|apply numeral_no_colon..].
  apply split_at_last in Heq as [Hb Hc]; [|apply numeral_no_space..].
  apply chars_inj in Hb, Hc, Hv.
  apply (inj pretty) in Hc, Hv. by rewrite Hb, Hc, Hv.
Qed.

(** X4. A reference determines book, chapter and verse number: two verses
    with the same [ref()] agree on all three, whatever characters the book
    name contains. *)
Theorem ref_inj v1 v2 :
  ref v1 = ref v2 →
  Verse.book v1 = Verse.book v2
  ∧ Verse.chapter v1 = Verse.chapter v2
  ∧ Verse.verse v1 = Verse.verse v2.
Proof.
  intros Hkey%ref_key. unfold verse_key in Hkey. by simplify_eq.
Qed.

(** X5. Under the constraint [uq_book_chapter_verse], a reference
    identifies its row: two rows of [verses] with the same [ref()] are the
    same row. *)
Theorem ref_identifies_verse s v1 v2 :
  verse_keys_unique s →
  v1 ∈ verses s → v2 ∈ verses s →
  ref v1 = ref v2 → v1 = v2.
Proof.
  intros Huq Hv1 Hv2 Href.
  apply (NoDup_fmap_key verse_key (verses s)); auto using ref_key.
Qed.

(** ** The HTTP handlers *)

Section handlers.
Context {G : Type} `{RandomSource G}.
Variable date_str : date → string.

(** X6. The same verse all day: once [GET /verse/today] has answered for a
    day, every later request for that day gets the same answer and leaves the
    store as it is, whatever the seed configured and the entropy drawn for
    the later request's selector. *)
Theorem verse_today_stable cfg1 cfg2 e1 e2 today s body s1 :
  verse_today (G:=G) date_str cfg1 e1 today s = (Ok body, s1) →
  verse_today (G:=G) date_str cfg2 e2 today s1 = (Ok body, s1).
Proof.
  unfold verse_today. intros Hfirst.
  destruct (get_for_date today (__init__ cfg1 e1 s None))
    as [[sel|e] self1] eqn:Hcall; [|by destruct self1].
  pose proof (get_for_date_stored _ _ _ _ Hcall) as Hst.
  assert (Hs1 : s1 = db self1).
  { destruct (scalar _); by injection Hfirst. }
  subst s1.
  rewrite (get_for_date_existing (__init__ cfg2 e2 (db self1) None) today sel Hst).
  simpl. destruct (scalar _); by injection Hfirst as <-.
Qed.

Lemma verse_today_new_pick cfg e today s :
  existing s today = None →
  candidates s ≠ [] →
  ∃ v, verse_today (G:=G) date_str cfg e today s
       = (Ok [("date", date_str today); ("reference", ref v);
              ("kjv", Verse.text_kjv v)],
          mkSession (verses s)
            (daily_selections s
             ++ [DailySelection.mk (next_id (daily_selections s)) today
                   (Verse.id v)])).
Proof.
  intros Ex Hc. unfold verse_today.
  destruct (get_for_date_new (__init__ cfg e s None) today Ex Hc)
    as (c & v & Hp & Hv & Hid & Hnew).
  change (db (__init__ cfg e s None)) with s in *.
  simpl in Hnew. rewrite Hnew. simpl.
  change (select_verse_by_id {| verses := verses s; daily_selections := _ |})
    with (select_verse_by_id s).
  rewrite Hv. exists v. by rewrite Hid.
Qed.

(** X7. On a day without a selection and with a verse left unused,
    [GET /verse/today] answers with the date, reference and text of an
    unused verse of the catalog, and stores that verse for the day. *)
Theorem verse_today_new cfg e today s :
  existing s today = None →
  candidates s ≠ [] →
  ∃ v, v ∈ verses s
       ∧ (Verse.id v ∉ used_ids s)
       ∧ verse_today (G:=G) date_str cfg e today s
         = (Ok [("date", date_str today); ("reference", ref v);
                ("kjv", Verse.text_kjv v)],
            mkSession (verses s)
              (daily_selections s
               ++ [DailySelection.mk (next_id (daily_selections s)) today
                     (Verse.id v)])).
Proof.
  intros Ex Hc. unfold verse_today.
  destruct (get_for_date_new (__init__ cfg e s None) today Ex Hc)
    as (c & v & Hp & Hv & Hid & Hnew).
  change (db (__init__ cfg e s None)) with s in *.
  simpl in Hnew. rewrite Hnew. simpl.
  change (select_verse_by_id {| verses := verses s; daily_selections := _ |})
    with (select_verse_by_id s).
  rewrite Hv. exists v.
  destruct (candidate_lookup s c) as (v' & Hv' & _ & Hin & Hun).
  { by apply pool_subseteq. }
  assert (v' = v) as -> by congruence.
  split; [done|]. split; [done|]. by rewrite Hid.
Qed.

(** X8. The two ways [GET /verse/today] fails.  It answers
    "verse not found" exactly when the selection stored for the day
    references a verse that is no longer in the catalog; it raises exactly
    when the day has no selection and no verse is left unused, and the
    exception is then the exhaustion error.  Neither changes the store. *)
Theorem verse_today_failures cfg e today s :
  ((verse_today (G:=G) date_str cfg e today s).1
   = Ok [("error", "verse not found")]
   ↔ ∃ sel, existing s today = Some sel
            ∧ scalar (select_verse_by_id s (DailySelection.verse_id sel)) = None)
  ∧ (∀ err, (verse_today (G:=G) date_str cfg e today s).1 = Raise err
            ↔ err = Exhausted ∧ existing s today = None ∧ candidates s = [])
  ∧ ((verse_today (G:=G) date_str cfg e today s).1
     = Ok [("error", "verse not found")]
     ∨ (∃ err, (verse_today (G:=G) date_str cfg e today s).1 = Raise err) →
     (verse_today (G:=G) date_str cfg e today s).2 = s).
Proof.
  destruct (existing s today) as [sel|] eqn:Ex.
  - unfold verse_today.
    rewrite (get_for_date_existing (__init__ cfg e s None) today sel Ex). simpl.
    destruct (scalar (select_verse_by_id s _)) as [v|] eqn:Ev; simpl.
    + split; [|split].
      * split; [done|]. intros (sel' & [= <-] & Hnone). congruence.
      * intros err. split; [done|]. by intros (_ & ? & _).
      * done.
    + split; [|split].
      * split; [eauto|done].
      * intros err. split; [done|]. by intros (_ & ? & _).
      * done.
  - destruct (candidates s) as [|c0 cs] eqn:Ec.
    + unfold verse_today.
      rewrite (get_for_date_exhausted (__init__ cfg e s None) today Ex Ec).
      simpl. split; [|split].
      * split; [done|]. by intros (sel & ? & _).
      * intros err. split; [by intros [= <-]|by intros (-> & _)].
      * done.
    + destruct (verse_today_new_pick cfg e today s Ex) as (v & Hnew).
      { by rewrite Ec. }
      rewrite Hnew. simpl. split; [|split].
      * split; [done|]. by intros (sel & ? & _).
      * intros err. split; [done|]. by intros (_ & _ & ?).
      * intros [?|[err ?]]; done.
Qed.

End handlers.

(** X9. [GET /verse/random] answers "no verses loaded" exactly when the
    catalog is empty; otherwise it answers with the reference and text of a
    verse of the catalog.  The selections play no part. *)
Theorem verse_random_answer order_by_random s :
  (∀ l, order_by_random l ≡ₚ l) →
  (verse_random order_by_random s = [("error", "no verses loaded")]
   ↔ verses s = [])
  ∧ (verses s ≠ [] →
     ∃ v, v ∈ verses s
          ∧ verse_random order_by_random s
            = [("reference", ref v); ("kjv", Verse.text_kjv v)]).
Proof.
  intros Hperm. unfold verse_random, scalar.
  destruct (order_by_random (verses s)) as [|v l] eqn:Eo; simpl.
  - assert (verses s = []) as Hnil.
    { apply Permutation_nil_r. by rewrite <- Eo, Hperm. }
    done.
  - assert (Hv : v ∈ verses s).
    { rewrite <- (Hperm (verses s)), Eo. left. }
    split.
    + split; [done|]. intros Hnil. rewrite Hnil in Hv.
      by apply elem_of_nil in Hv.
    + intros _. by exists v.
Qed.

(** ** Resetting and clearing the store *)

Section admin.
Context {G : Type} `{RandomSource G}.

(** X10. A confirmed reset of the daily selections gives the whole catalog
    back: on the reset store, as many distinct dates as there are verses can
    be resolved, each to a different verse, starting from any state of the
    random source.  A declined reset leaves the store as it is. *)
Theorem reset_restores_capacity s (g : G) ds :
  verse_ids_unique s →
  NoDup ds →
  (length ds ≤ length (verses s))%nat →
  reset_daily_selections false s = s
  ∧ ∃ picks self1,
      get_for_dates ds (mkSelector (reset_daily_selections true s) g)
      = (Ok <$> picks, self1)
      ∧ DailySelection.date <$> picks = ds
      ∧ NoDup (DailySelection.verse_id <$> picks).
Proof.
  intros Hpk Hnd Hlen. split; [done|].
  destruct (get_for_dates_distinct ds (mkSelector (reset_daily_selections true s) g))
    as (picks & self1 & Hrun & Hdates & Hdist & _).
  - exact Hpk.
  - exact Hnd.
  - intros d _. by apply existing_None, not_elem_of_nil.
  - by rewrite candidates_fresh, length_fmap.
  - by exists picks, self1.
Qed.

End admin.

(** ** Generating a schedule *)

Lemma existing_is_Some s d :
  is_Some (existing s d) ↔ d ∈ DailySelection.date <$> daily_selections s.
Proof.
  rewrite <- not_eq_None_Some, existing_None.
  split; [apply dec_stable|auto].
Qed.

Lemma date_add_Some d n t : date_add d n = Some t → t = d + n.
Proof. unfold date_add. case_decide; congruence. Qed.

Section schedule_facts.
Context {G : Type} `{RandomSource G}.
Implicit Types (self mid : VerseSelector G) (d target : date).

(** *** Deleting a row *)

Lemma delete_commit_sublist row self :
  verses (db (delete_commit row self).2) = verses (db self)
  ∧ daily_selections (db (delete_commit row self).2)
    `sublist_of` daily_selections (db self).
Proof. simpl. split; [done|]. apply sublist_filter. Qed.

Lemma delete_commit_keeps_others row self r :
  selection_ids_unique (db self) →
  row ∈ daily_selections (db self) →
  r ∈ daily_selections (db self) → r ≠ row →
  r ∈ daily_selections (db (delete_commit row self).2).
Proof.
  intros Hids Hrow Hr Hne. simpl. apply list_elem_of_filter. split; [|done].
  intros Heq. apply Hne.
  by apply (NoDup_fmap_key DailySelection.id (daily_selections (db self))).
Qed.

Lemma sublist_keeps_invariants s s' :
  verses s' = verses s →
  daily_selections s' `sublist_of` daily_selections s →
  (selection_ids_unique s → selection_ids_unique s')
  ∧ (no_repeat s → no_repeat s')
  ∧ (references_exist s → references_exist s')
  ∧ (dates_unique s → dates_unique s').
Proof.
  intros Hvs Hsub.
  unfold selection_ids_unique, no_repeat, references_exist, dates_unique.
  split; [|split; [|split]].
  - intros Hnd. eapply sublist_NoDup; [exact Hnd|by apply fmap_sublist].
  - intros Hnd. eapply sublist_NoDup; [exact Hnd|by apply fmap_sublist].
  - intros Href r Hr. rewrite Hvs. apply Href.
    by eapply (sublist_subseteq _ _ Hsub).
  - intros Hnd. eapply sublist_NoDup; [exact Hnd|by apply fmap_sublist].
Qed.

(** *** One day *)

(** Either the day is skipped, or [get_for_date] runs, on the store as it
    is or on the store with the day's row deleted. *)
Lemma schedule_day_inv overwrite target self r self' :
  schedule_day overwrite target self = (r, self') →
  (overwrite = false ∧ is_Some (existing (db self) target)
   ∧ r = Ok () ∧ self' = self)
  ∨ ∃ mid res,
      ((existing (db self) target = None ∧ mid = self)
       ∨ (overwrite = true
          ∧ ∃ row, existing (db self) target = Some row
                   ∧ mid = (delete_commit row self).2))
      ∧ get_for_date target mid = (res, self')
      ∧ r = match res with Ok _ => Ok () | Raise e => Raise e end.
Proof.
  unfold schedule_day, bind, query, ret.
  change (scalar (select_selection_by_date (db self) target))
    with (existing (db self) target).
  destruct (existing (db self) target) as [row|] eqn:Ex;
    [destruct overwrite|]; simpl.
  - destruct (get_for_date target _) as [[a|e] s1] eqn:Hg; intros [= <- <-];
      right; eexists _, _; (split; [right; split; [done|]; eauto|]);
      rewrite Hg; done.
  - intros [= <- <-]. left. eauto.
  - destruct overwrite;
      destruct (get_for_date target self) as [[a|e] s1] eqn:Hg;
      intros [= <- <-]; right; eexists _, _;
      (split; [by left|]); rewrite Hg; done.
Qed.

Lemma schedule_day_keeps_invariants overwrite target self :
  verses (db (schedule_day overwrite target self).2) = verses (db self)
  ∧ (selection_ids_unique (db self) →
     selection_ids_unique (db (schedule_day overwrite target self).2))
  ∧ (no_repeat (db self) → no_repeat (db (schedule_day overwrite target self).2))
  ∧ (references_exist (db self) →
     references_exist (db (schedule_day overwrite target self).2))
  ∧ (dates_unique (db self) →
     dates_unique (db (schedule_day overwrite target self).2)).
Proof.
  destruct (schedule_day overwrite target self) as [r self'] eqn:Hday.
  apply schedule_day_inv in Hday
    as [(_ & _ & _ & ->)|(mid & res & Hmid & Hg & _)]; [done|].
  simpl.
  assert (Hmid' : verses (db mid) = verses (db self)
                  ∧ (selection_ids_unique (db self) → selection_ids_unique (db mid))
                  ∧ (no_repeat (db self) → no_repeat (db mid))
                  ∧ (references_exist (db self) → references_exist (db mid))
                  ∧ (dates_unique (db self) → dates_unique (db mid))).
  { destruct Hmid as [[_ ->]|(_ & row & _ & ->)]; [done|].
    destruct (delete_commit_sublist row self) as [Hvs Hsub].
    split; [done|]. by apply sublist_keeps_invariants. }
  destruct Hmid' as (Hvs & Hids & Hnr & Href & Hdates).
  pose proof (get_for_date_prefix mid target) as [Hvs' _].
  pose proof (get_for_date_selection_ids mid target) as Hids'.
  pose proof (get_for_date_no_repeat mid target) as Hnr'.
  pose proof (get_for_date_references mid target) as Href'.
  pose proof (get_for_date_dates mid target) as Hdates'.
  rewrite Hg in Hvs', Hids', Hnr', Href', Hdates'. simpl in *.
  split; [congruence|]. repeat split; auto.
Qed.

(** A day that is processed without an exception has a selection. *)
Lemma schedule_day_covers overwrite target self self' :
  schedule_day overwrite target self = (Ok (), self') →
  is_Some (existing (db self') target).
Proof.
  intros [(_ & Hex & _ & ->)|(mid & res & _ & Hg & Hr)]%schedule_day_inv;
    [done|].
  destruct res as [a|e]; [|done].
  apply get_for_date_stored in Hg. by rewrite Hg.
Qed.

(** The selections of the other days stay. *)
Lemma schedule_day_keeps_other overwrite target self t :
  (overwrite = true → selection_ids_unique (db self)) →
  t ≠ target →
  is_Some (existing (db self) t) →
  is_Some (existing (db (schedule_day overwrite target self).2) t).
Proof.
  intros Hids Hne Ht.
  destruct (schedule_day overwrite target self) as [r self'] eqn:Hday.
  apply schedule_day_inv in Hday
    as [(_ & _ & _ & ->)|(mid & res & Hmid & Hg & _)]; [done|].
  simpl.
  assert (Hmid' : is_Some (existing (db mid) t)).
  { destruct Hmid as [[_ ->]|(Hov & row & Hrow & ->)]; [done|].
    apply existing_is_Some in Ht.
    apply list_elem_of_fmap in Ht as (r0 & -> & Hr0).
    apply existing_Some in Hrow as [Hrow Hdate].
    apply existing_is_Some. apply list_elem_of_fmap_2.
    apply delete_commit_keeps_others; auto. congruence. }
  pose proof (get_for_date_prefix mid t) as _.
  pose proof (get_for_date_prefix mid target) as (_ & new & Hnew & _).
  rewrite Hg in Hnew. simpl in Hnew.
  apply existing_is_Some. apply existing_is_Some in Hmid'.
  rewrite Hnew, fmap_app. apply elem_of_app. by left.
Qed.

(** An exception in a day is the exhaustion error, raised on a store
    without an unused verse. *)
Lemma schedule_day_raise overwrite target self e self' :
  schedule_day overwrite target self = (Raise e, self') →
  e = Exhausted ∧ candidates (db self') = [].
Proof.
  intros [(_ & _ & ? & _)|(mid & res & Hmid & Hg & Hr)]%schedule_day_inv;
    [done|].
  destruct res as [a|e']; [done|]. injection Hr as ->.
  destruct (get_for_date_cases mid target)
    as [[Hdb [(a & _ & Ha)|[Ex He]]]|(c & v & a & _ & _ & _ & _ & Ha & _)];
    rewrite Hg in *; simpl in *; try done.
  destruct (get_for_date_raise mid target e' Ex) as [-> Hc].
  { by rewrite Hg. }
  by rewrite Hdb.
Qed.

(** Without [overwrite] a day only appends, and only for a date without a
    selection. *)
Lemma schedule_day_appends target self :
  ∃ new,
    daily_selections (db (schedule_day false target self).2)
    = daily_selections (db self) ++ new
    ∧ ∀ r, r ∈ new →
           DailySelection.date r = target ∧ existing (db self) target = None.
Proof.
  destruct (schedule_day false target self) as [r self'] eqn:Hday.
  apply schedule_day_inv in Hday
    as [(_ & _ & _ & ->)|(mid & res & Hmid & Hg & _)].
  { exists []. simpl. rewrite app_nil_r. split; [done|].
    intros r0 Hr0. by apply elem_of_nil in Hr0. }
  destruct Hmid as [[Ex ->]|(? & _)]; [|done]. simpl.
  destruct (get_for_date_cases self target)
    as [[Hdb _]|(c & v & a & _ & _ & _ & Ha & _ & Hdb)];
    rewrite Hg in Hdb; simpl in Hdb; rewrite Hdb.
  - exists []. rewrite app_nil_r. split; [done|].
    intros r0 Hr0. by apply elem_of_nil in Hr0.
  - exists [a]. split; [done|].
    intros r0 ->%list_elem_of_singleton. by rewrite Ha.
Qed.

(** *** The loop *)

Lemma generate_loop_keeps_invariants start overwrite offsets :
  ∀ self,
    verses (db (generate_loop start overwrite offsets self).2) = verses (db self)
    ∧ (selection_ids_unique (db self) →
       selection_ids_unique (db (generate_loop start overwrite offsets self).2))
    ∧ (no_repeat (db self) →
       no_repeat (db (generate_loop start overwrite offsets self).2))
    ∧ (references_exist (db self) →
       references_exist (db (generate_loop start overwrite offsets self).2))
    ∧ (dates_unique (db self) →
       dates_unique (db (generate_loop start overwrite offsets self).2)).
Proof.
  induction offsets as [|offset offsets IH]; intros self; simpl; [done|].
  destruct (date_add start offset) as [target|]; [|done].
  pose proof (schedule_day_keeps_invariants overwrite target self)
    as (Hvs & Hids & Hnr & Href & Hdates).
  destruct (schedule_day overwrite target self) as [[[]|e] self1]; simpl in *.
  - destruct (IH self1) as (Hvs' & Hids' & Hnr' & Href' & Hdates').
    split; [congruence|]. repeat split; auto.
  - done.
Qed.

Lemma generate_loop_keeps_other start overwrite offsets t :
  ∀ self,
    (overwrite = true → selection_ids_unique (db self)) →
    (∀ offset, offset ∈ offsets → start + offset ≠ t) →
    is_Some (existing (db self) t) →
    is_Some (existing (db (generate_loop start overwrite offsets self).2) t).
Proof.
  induction offsets as [|offset offsets IH]; intros self Hids Hother Ht; simpl;
    [done|].
  destruct (date_add start offset) as [target|] eqn:Hadd; [|done].
  apply date_add_Some in Hadd.
  pose proof (schedule_day_keeps_other overwrite target self t Hids) as Hkeep.
  pose proof (schedule_day_keeps_invariants overwrite target self)
    as (_ & Hids' & _).
  destruct (schedule_day overwrite target self) as [[[]|e] self1]; simpl in *.
  - apply IH.
    + auto.
    + intros offset' Ho. apply Hother. by right.
    + apply Hkeep; [|done]. intros <-. apply (Hother offset); [left|done].
  - apply Hkeep; [|done]. intros <-. apply (Hother offset); [left|done].
Qed.

Lemma generate_loop_covers start overwrite offsets :
  ∀ self self',
    (overwrite = true → selection_ids_unique (db self)) →
    NoDup offsets →
    generate_loop start overwrite offsets self = (Done, self') →
    ∀ offset, offset ∈ offsets → is_Some (existing (db self') (start + offset)).
Proof.
  induction offsets as [|offset offsets IH]; intros self self' Hids Hnd Hloop o Ho.
  { by apply elem_of_nil in Ho. }
  apply NoDup_cons in Hnd as [Hfresh Hnd]. simpl in Hloop.
  destruct (date_add start offset) as [target|] eqn:Hadd; [|done].
  apply date_add_Some in Hadd. subst target.
  pose proof (schedule_day_keeps_invariants overwrite (start + offset) self)
    as (_ & Hids' & _).
  destruct (schedule_day overwrite (start + offset) self) as [[[]|e] self1] eqn:Hday;
    [|done].
  simpl in Hids'.
  apply elem_of_cons in Ho as [->|Ho].
  - pose proof (generate_loop_keeps_other start overwrite offsets (start + offset) self1)
      as Hkeep.
    rewrite Hloop in Hkeep. apply Hkeep; [auto| |by eapply schedule_day_covers].
    intros o' Ho' Heq. assert (o' = offset) as -> by lia. done.
  - by apply (IH self1 self'); auto.
Qed.

Lemma generate_loop_failed start overwrite offsets :
  ∀ self e self',
    generate_loop start overwrite offsets self = (Failed e, self') →
    e = Exhausted ∧ candidates (db self') = [].
Proof.
  induction offsets as [|offset offsets IH]; intros self e self' Hloop;
    simpl in Hloop; [done|].
  destruct (date_add start offset) as [target|]; [|done].
  destruct (schedule_day overwrite target self) as [[[]|e0] self1] eqn:Hday.
  - by eapply IH.
  - injection Hloop as <- <-. by eapply schedule_day_raise.
Qed.

Lemma generate_loop_overflow start overwrite offsets :
  ∀ self self',
    generate_loop start overwrite offsets self = (Overflow, self') →
    ∃ offset, offset ∈ offsets ∧ ¬ (date_min ≤ start + offset ≤ date_max).
Proof.
  induction offsets as [|offset offsets IH]; intros self self' Hloop;
    simpl in Hloop; [done|].
  destruct (date_add start offset) as [target|] eqn:Hadd.
  - destruct (schedule_day overwrite target self) as [[[]|e0] self1]; [|done].
    destruct (IH _ _ Hloop) as (o & Ho & Hout). exists o. split; [by right|done].
  - exists offset. split; [left|]. unfold date_add in Hadd. by case_decide.
Qed.

Lemma generate_loop_appends start offsets :
  ∀ self,
    ∃ new,
      daily_selections (db (generate_loop start false offsets self).2)
      = daily_selections (db self) ++ new
      ∧ ∀ r, r ∈ new →
             (∃ offset, offset ∈ offsets ∧ DailySelection.date r = start + offset)
             ∧ existing (db self) (DailySelection.date r) = None.
Proof.
  induction offsets as [|offset offsets IH]; intros self; simpl.
  { exists []. rewrite app_nil_r. split; [done|].
    intros r Hr. by apply elem_of_nil in Hr. }
  destruct (date_add start offset) as [target|] eqn:Hadd.
  2:{ exists []. simpl. rewrite app_nil_r. split; [done|].
      intros r Hr. by apply elem_of_nil in Hr. }
  apply date_add_Some in Hadd. subst target.
  destruct (schedule_day_appends (start + offset) self) as (new1 & Hnew1 & Hall1).
  destruct (schedule_day false (start + offset) self) as [[[]|e] self1];
    simpl in *.
  - destruct (IH self1) as (new2 & Hnew2 & Hall2).
    exists (new1 ++ new2). rewrite Hnew2, Hnew1, app_assoc. split; [done|].
    intros r [Hr|Hr]%elem_of_app.
    + destruct (Hall1 r Hr) as [Hd Hex]. rewrite Hd. split; [|done].
      exists offset. split; [left|done].
    + destruct (Hall2 r Hr) as [(o & Ho & Hd) Hex]. split.
      * exists o. split; [by right|done].
      * apply existing_None. apply existing_None in Hex.
        rewrite Hnew1, fmap_app in Hex. intros Hin. apply Hex.
        apply elem_of_app. by left.
  - exists new1. split; [done|]. intros r Hr.
    destruct (Hall1 r Hr) as [Hd Hex]. rewrite Hd. split; [|done].
    exists offset. split; [left|done].
Qed.

(** With every date of the range assigned, the loop without [overwrite]
    does nothing. *)
Lemma generate_loop_skip start offsets self :
  (∀ offset, offset ∈ offsets →
     date_min ≤ start + offset ≤ date_max
     ∧ is_Some (existing (db self) (start + offset))) →
  generate_loop start false offsets self = (Done, self).
Proof.
  induction offsets as [|offset offsets IH]; intros Hall; simpl; [done|].
  destruct (Hall offset) as [Hrange [row Hrow]]; [left|].
  unfold date_add. rewrite decide_True by done.
  unfold schedule_day, bind, query, ret.
  change (scalar (select_selection_by_date (db self) (start + offset)))
    with (existing (db self) (start + offset)).
  rewrite Hrow. apply IH. intros o Ho. apply Hall. by right.
Qed.

Lemma generate_loop_done_in_range start overwrite offsets :
  ∀ self self',
    generate_loop start overwrite offsets self = (Done, self') →
    ∀ offset, offset ∈ offsets → date_min ≤ start + offset ≤ date_max.
Proof.
  induction offsets as [|offset offsets IH]; intros self self' Hloop o Ho.
  { by apply elem_of_nil in Ho. }
  simpl in Hloop. unfold date_add in Hloop.
  case_decide as Hr; [|done].
  destruct (schedule_day overwrite (start + offset) self) as [[[]|e] self1];
    [|done].
  apply elem_of_cons in Ho as [->|Ho]; [done|]. by eapply IH.
Qed.

End schedule_facts.

Section generate_facts.
Context {G : Type} `{RandomSource G}.

Lemma generate_eq cfg e s start days overwrite :
  generate (G:=G) cfg e s start days overwrite
  = ((generate_loop start overwrite (py_range days) (__init__ cfg e s None)).1,
     db (generate_loop start overwrite (py_range days) (__init__ cfg e s None)).2).
Proof. unfold generate. by destruct (generate_loop _ _ _ _). Qed.

Lemma generate_Done cfg e s start days overwrite s' :
  generate (G:=G) cfg e s start days overwrite = (Done, s') →
  ∃ self', generate_loop start overwrite (py_range days) (__init__ cfg e s None)
           = (Done, self')
           ∧ s' = db self'.
Proof.
  rewrite generate_eq.
  destruct (generate_loop _ _ _ _) as [o self']. simpl.
  intros [= -> <-]. by exists self'.
Qed.

(** X11. A schedule that [generate] completes covers its range: when
    [generate(start, days, overwrite)] returns, every date from [start] up to
    [start + days - 1] has a stored selection. *)
Theorem generate_covers cfg e s start days overwrite s' :
  (overwrite = true → selection_ids_unique s) →
  generate (G:=G) cfg e s start days overwrite = (Done, s') →
  ∀ offset, 0 ≤ offset < days →
            is_Some (existing s' (start + offset)).
Proof.
  intros Hids (self' & Hloop & ->)%generate_Done offset Hoff.
  apply (generate_loop_covers start overwrite (py_range days)
           (__init__ cfg e s None) self' Hids (NoDup_seqZ 0 days) Hloop).
  apply elem_of_seqZ. lia.
Qed.

(** X12. Without [overwrite], [generate] leaves what is stored intact,
    however it ends: the [verses] table is untouched, the selections stored
    before are still stored in place, and every row added is for a date of
    the range that had no selection. *)
Theorem generate_leaves_intact cfg e s start days :
  verses (generate (G:=G) cfg e s start days false).2 = verses s
  ∧ ∃ new,
      daily_selections (generate (G:=G) cfg e s start days false).2
      = daily_selections s ++ new
      ∧ ∀ r, r ∈ new →
             start ≤ DailySelection.date r < start + days
             ∧ existing s (DailySelection.date r) = None.
Proof.
  rewrite generate_eq. simpl. split.
  { by destruct (generate_loop_keeps_invariants start false (py_range days)
                   (__init__ cfg e s None)) as [Hvs _]. }
  destruct (generate_loop_appends start (py_range days) (__init__ cfg e s None))
    as (new & Hnew & Hall).
  exists new. split; [done|]. intros r Hr.
  destruct (Hall r Hr) as [(o & Ho & Hd) Hex]. split; [|done].
  apply elem_of_seqZ in Ho. lia.
Qed.

(** X13. How [generate] ends otherwise.  An exception of the selector is
    the exhaustion error, and it leaves a store in which every verse is
    used: the days before it keep their new selections.  The date arithmetic
    overflows only when the range is not within [date.min .. date.max].  A
    range of no days returns at once. *)
Theorem generate_failures cfg e s start days overwrite :
  (∀ err s', generate (G:=G) cfg e s start days overwrite = (Failed err, s') →
             err = Exhausted ∧ candidates s' = [])
  ∧ (∀ s', generate (G:=G) cfg e s start days overwrite = (Overflow, s') →
           ¬ (date_min ≤ start ∧ start + days - 1 ≤ date_max))
  ∧ (days ≤ 0 → generate (G:=G) cfg e s start days overwrite = (Done, s)).
Proof.
  rewrite generate_eq. split; [|split].
  - destruct (generate_loop _ _ _ _) as [o self'] eqn:Hloop. simpl.
    intros err s' [= -> <-]. by eapply generate_loop_failed.
  - intros s'. destruct (generate_loop _ _ _ _) as [o self'] eqn:Hloop. simpl.
    intros [= -> <-] [Hlo Hhi].
    destruct (generate_loop_overflow _ _ _ _ _ Hloop) as (o & Ho & Hout).
    apply elem_of_seqZ in Ho. unfold date_min, date_max in *. lia.
  - intros Hdays. unfold py_range, seqZ.
    replace (Z.to_nat days) with 0%nat by lia. done.
Qed.

Lemma generate_Done_bound cfg e s start days overwrite s' :
  no_repeat s →
  references_exist s →
  (overwrite = true → selection_ids_unique s) →
  generate (G:=G) cfg e s start days overwrite = (Done, s') →
  (Z.to_nat days ≤ length (verses s))%nat.
Proof.
  intros Hnr Href Hids Hgen.
  pose proof Hgen as (self' & Hloop & ->)%generate_Done.
  pose proof (generate_loop_keeps_invariants start overwrite (py_range days)
                (__init__ cfg e s None)) as (Hvs & _ & Hnr' & Href' & _).
  rewrite Hloop in Hvs, Hnr', Href'. simpl in *.
  specialize (Hnr' Hnr). specialize (Href' Href).
  set (targets := (λ o, start + o) <$> py_range days).
  assert (Htargets : NoDup targets).
  { apply NoDup_fmap_2_strong; [|apply NoDup_seqZ]. intros x y _ _ Hxy. lia. }
  assert (Hcov : ∀ t, t ∈ targets →
                      t ∈ DailySelection.date <$> daily_selections (db self')).
  { intros t (o & -> & Ho)%list_elem_of_fmap. apply existing_is_Some.
    by apply (generate_loop_covers start overwrite (py_range days)
                (__init__ cfg e s None) self' Hids (NoDup_seqZ 0 days) Hloop). }
  pose proof (submseteq_length _ _ (NoDup_submseteq _ _ Htargets Hcov)) as Hlen1.
  assert (Hsub : ∀ i, i ∈ DailySelection.verse_id <$> daily_selections (db self') →
                      i ∈ Verse.id <$> verses (db self')).
  { intros i (r & -> & Hr)%list_elem_of_fmap. by apply Href'. }
  pose proof (submseteq_length _ _ (NoDup_submseteq _ _ Hnr' Hsub)) as Hlen2.
  unfold targets, py_range in Hlen1.
  rewrite !length_fmap in Hlen1. rewrite !length_fmap in Hlen2.
  rewrite length_seqZ in Hlen1.
  rewrite <- Hvs. lia.
Qed.

(** X14. A schedule cannot outgrow the catalog: on a store where no verse
    is referenced twice and every selection references a stored verse, a
    [generate] that returns has a range of at most as many days as there are
    verses; a longer range always ends in an exception. *)
Theorem generate_capacity cfg e s start days overwrite s' :
  no_repeat s →
  references_exist s →
  (overwrite = true → selection_ids_unique s) →
  generate (G:=G) cfg e s start days overwrite = (Done, s') →
  (Z.to_nat days ≤ length (verses s))%nat.
Proof. apply generate_Done_bound. Qed.

(** X15. Generating a schedule twice: after [generate] without
    [overwrite] has returned, running it again over the same range returns
    and leaves the store exactly as it is, whatever the second run's seed. *)
Theorem generate_again cfg e cfg' e' s start days s' :
  generate (G:=G) cfg e s start days false = (Done, s') →
  generate (G:=G) cfg' e' s' start days false = (Done, s').
Proof.
  intros (self' & Hloop & ->)%generate_Done.
  rewrite generate_eq. rewrite generate_loop_skip; [done|].
  intros offset Ho. split.
  - by eapply generate_loop_done_in_range.
  - change (db (__init__ cfg' e' (db self') None)) with (db self').
    by apply (generate_loop_covers start false (py_range days)
                (__init__ cfg e s None) self' ltac:(done) (NoDup_seqZ 0 days)
                Hloop).
Qed.

(** X16. [generate], with or without [overwrite] and however it ends,
    keeps the [verses] table and each invariant of the selections: unique
    dates, unique keys, no verse referenced twice, valid references. *)
Theorem generate_keeps_invariants cfg e s start days overwrite :
  verses (generate (G:=G) cfg e s start days overwrite).2 = verses s
  ∧ (dates_unique s →
     dates_unique (generate (G:=G) cfg e s start days overwrite).2)
  ∧ (selection_ids_unique s →
     selection_ids_unique (generate (G:=G) cfg e s start days overwrite).2)
  ∧ (no_repeat s → no_repeat (generate (G:=G) cfg e s start days overwrite).2)
  ∧ (references_exist s →
     references_exist (generate (G:=G) cfg e s start days overwrite).2).
Proof.
  rewrite generate_eq. simpl.
  destruct (generate_loop_keeps_invariants start overwrite (py_range days)
              (__init__ cfg e s None)) as (Hvs & Hids & Hnr & Href & Hdates).
  repeat split; auto.
Qed.

End generate_facts.

(** ** Loading verses *)

Lemma next_verse_id_fresh rows v :
  v ∈ rows → Verse.id v < next_verse_id rows.
Proof.
  unfold next_verse_id. induction rows as [|v0 rows IH]; intros Hv.
  - by apply elem_of_nil in Hv.
  - rewrite fmap_cons. simpl.
    apply elem_of_cons in Hv as [->|Hv]; [lia|].
    specialize (IH Hv). lia.
Qed.

Lemma insert_verse_Some table p table' :
  insert_verse table p = Some table' →
  ∃ b t,
    Pending.book p = Some b
    ∧ Pending.text_kjv p = Some t
    ∧ ((b, Pending.chapter p, Pending.verse p) ∉ verse_key <$> table)
    ∧ table' = table ++ [Verse.mk (next_verse_id table) b (Pending.chapter p)
                           (Pending.verse p) t].
Proof.
  unfold insert_verse.
  destruct (Pending.book p) as [b|], (Pending.text_kjv p) as [t|]; try done.
  case_decide; [done|]. intros [= <-]. by exists b, t.
Qed.

Lemma flush_app table pending1 pending2 :
  flush table (pending1 ++ pending2)
  = match flush table pending1 with
    | Some table' => flush table' pending2
    | None => None
    end.
Proof.
  revert table. induction pending1 as [|p pending1 IH]; intros table; simpl;
    [done|].
  destruct (insert_verse table p); [apply IH|done].
Qed.

(** A flush that succeeds appends one row for each pending object, keeps
    the rows there were and the two uniqueness constraints of the table. *)
Lemma flush_Some pending :
  ∀ table table',
    flush table pending = Some table' →
    ∃ added,
      table' = table ++ added
      ∧ length added = length pending
      ∧ (NoDup (verse_key <$> table) → NoDup (verse_key <$> table'))
      ∧ (NoDup (Verse.id <$> table) → NoDup (Verse.id <$> table'))
      ∧ ∀ p, p ∈ pending →
             ∃ b, Pending.book p = Some b
                  ∧ (b, Pending.chapter p, Pending.verse p)
                    ∈ verse_key <$> table'.
Proof.
  induction pending as [|p pending IH]; intros table table' Hflush;
    simpl in Hflush.
  - injection Hflush as <-. exists []. rewrite app_nil_r.
    repeat split; auto. intros p Hp. by apply elem_of_nil in Hp.
  - destruct (insert_verse table p) as [table1|] eqn:Hins; [|done].
    apply insert_verse_Some in Hins as (b & t & Hb & Ht & Hfresh & ->).
    destruct (IH _ _ Hflush) as (added & -> & Hlen & Hkeys & Hids & Hall).
    eexists (_ :: added). rewrite <- app_assoc. simpl.
    split; [done|]. split; [by rewrite Hlen|].
    rewrite <- app_assoc in Hkeys, Hids, Hall. simpl in *.
    split; [|split].
    + intros Hnd. apply Hkeys. rewrite fmap_app. apply NoDup_app.
      split; [done|]. split; [|apply NoDup_singleton].
      intros k Hk ->%list_elem_of_singleton. done.
    + intros Hnd. apply Hids. rewrite fmap_app. apply NoDup_app.
      split; [done|]. split; [|apply NoDup_singleton].
      intros i (v & -> & Hv)%list_elem_of_fmap Hi%list_elem_of_singleton.
      pose proof (next_verse_id_fresh _ _ Hv). simpl in Hi. lia.
    + intros p' [->|Hp']%elem_of_cons; [|by apply Hall].
      exists b. split; [done|]. rewrite fmap_app, fmap_cons.
      apply elem_of_app. right. left.
Qed.

Section loader_facts.
Variable py_int : string → option Z.

Lemma row_stored_mono table added row :
  row_stored py_int table row → row_stored py_int (table ++ added) row.
Proof.
  intros (b & c & v & Hb & Hc & Hv & Hc64 & Hv64 & Hin).
  exists b, c, v. do 5 (split; [done|]).
  rewrite fmap_app. apply elem_of_app. by left.
Qed.

Lemma select_verse_by_key_Some table b c v x :
  scalar (select_verse_by_key table b c v) = Some x →
  ∃ b', b = Some b' ∧ (b', c, v) ∈ verse_key <$> table.
Proof.
  intros [(Hb & Hc & Hv) Hx]%scalar_filter_Some.
  exists (Verse.book x). split; [done|].
  apply list_elem_of_fmap. exists x. split; [|done].
  unfold verse_key. by rewrite Hc, Hv.
Qed.

Lemma select_verse_by_key_is_Some table b c v :
  (b, c, v) ∈ verse_key <$> table →
  is_Some (scalar (select_verse_by_key table (Some b) c v)).
Proof.
  intros (x & Hkey & Hx)%list_elem_of_fmap. unfold verse_key in Hkey.
  injection Hkey as -> -> ->.
  by apply (scalar_filter_is_Some _ table x).
Qed.

(** The loop, when it returns. *)
Lemma load_rows_inr autoflush rows :
  ∀ table pending count table' count',
    load_rows py_int autoflush rows table pending count = inr (table', count') →
    ∃ added,
      table' = table ++ added
      ∧ (length pending + count' = length added + count)%nat
      ∧ (count ≤ count')%nat
      ∧ (NoDup (verse_key <$> table) → NoDup (verse_key <$> table'))
      ∧ (NoDup (Verse.id <$> table) → NoDup (Verse.id <$> table'))
      ∧ (∀ p, p ∈ pending →
              ∃ b, Pending.book p = Some b
                   ∧ (b, Pending.chapter p, Pending.verse p)
                     ∈ verse_key <$> table')
      ∧ Forall (row_stored py_int table') rows.
Proof.
  induction rows as [|row rows IH]; intros table pending count table' count' Hload;
    simpl in Hload.
  - destruct (flush table pending) as [t1|] eqn:Hflush; [|done].
    injection Hload as <- <-.
    destruct (flush_Some _ _ _ Hflush) as (added & -> & Hlen & Hkeys & Hids & Hall).
    exists added. repeat split; auto; lia.
  - destruct (int_field py_int (Row.chapter row)) as [e|c] eqn:Hc; [done|].
    destruct (int_field py_int (Row.verse row)) as [e|v] eqn:Hv; [done|].
    destruct autoflush.
    + destruct (flush table pending) as [t1|] eqn:Hflush; [|done].
      destruct (flush_Some _ _ _ Hflush) as (a1 & -> & Hlen1 & Hkeys1 & Hids1 & Hall1).
      case_decide as H64; [|done]. destruct H64 as [Hc64 Hv64].
      destruct (scalar (select_verse_by_key _ _ _ _)) as [x|] eqn:Hex.
      * destruct (IH _ _ _ _ _ Hload)
          as (a2 & -> & Hlen2 & Hle & Hkeys2 & Hids2 & _ & Hrows).
        exists (a1 ++ a2). rewrite app_assoc. split; [done|].
        rewrite length_app. simpl in Hlen2.
        split; [lia|]. split; [done|]. split; [auto|]. split; [auto|]. split.
        { intros p Hp. destruct (Hall1 p Hp) as (b & Hb & Hin).
          exists b. split; [done|]. rewrite fmap_app. apply elem_of_app. by left. }
        constructor; [|done]. apply row_stored_mono.
        apply select_verse_by_key_Some in Hex as (b & Hb & Hin).
        by exists b, c, v.
      * destruct (IH _ _ _ _ _ Hload)
          as (a2 & -> & Hlen2 & Hle & Hkeys2 & Hids2 & Hall2 & Hrows).
        exists (a1 ++ a2). rewrite app_assoc. split; [done|].
        rewrite length_app. simpl in Hlen2.
        split; [lia|]. split; [lia|]. split; [auto|]. split; [auto|]. split.
        { intros p Hp. destruct (Hall1 p Hp) as (b & Hb & Hin).
          exists b. split; [done|]. rewrite fmap_app. apply elem_of_app. by left. }
        constructor; [|done].
        destruct (Hall2 (Pending.mk (Row.book row) c v (Row.text_kjv row)))
          as (b & Hb & Hin); [left|]. simpl in *.
        by exists b, c, v.
    + case_decide as H64; [|done]. destruct H64 as [Hc64 Hv64].
      destruct (scalar (select_verse_by_key _ _ _ _)) as [x|] eqn:Hex.
      * destruct (IH _ _ _ _ _ Hload)
          as (a2 & -> & Hlen2 & Hle & Hkeys2 & Hids2 & Hall2 & Hrows).
        exists a2. repeat split; auto.
        constructor; [|done]. apply row_stored_mono.
        apply select_verse_by_key_Some in Hex as (b & Hb & Hin).
        by exists b, c, v.
      * destruct (IH _ _ _ _ _ Hload)
          as (a2 & -> & Hlen2 & Hle & Hkeys2 & Hids2 & Hall2 & Hrows).
        exists a2. rewrite length_app in Hlen2. simpl in Hlen2.
        split; [done|]. split; [lia|]. split; [lia|].
        split; [done|]. split; [done|]. split.
        { intros p Hp. apply Hall2. apply elem_of_app. by left. }
        constructor; [|done].
        destruct (Hall2 (Pending.mk (Row.book row) c v (Row.text_kjv row)))
          as (b & Hb & Hin).
        { apply elem_of_app. right. left. }
        simpl in *. by exists b, c, v.
Qed.

(** Records that are all in the table are all skipped. *)
Lemma load_rows_skip autoflush rows table count :
  Forall (row_stored py_int table) rows →
  load_rows py_int autoflush rows table [] count = inr (table, count).
Proof.
  induction 1 as [|row rows (b & c & v & Hb & Hc & Hv & Hc64 & Hv64 & Hin) _ IH];
    simpl; [done|].
  rewrite Hc, Hv. replace (if autoflush then Some table else Some table)
    with (Some table) by (by destruct autoflush).
  rewrite decide_True by done. rewrite Hb.
  destruct (select_verse_by_key_is_Some table b c v Hin) as [x ->].
  by destruct autoflush.
Qed.

End loader_facts.

Section load_csv_facts.
Variable py_int : string → option Z.

Lemma load_csv_inr autoflush fieldnames rows s n s' :
  load_csv py_int autoflush fieldnames rows s = (inr n, s') →
  ∃ table,
    load_rows py_int autoflush rows (verses s) [] 0 = inr (table, n)
    ∧ s' = mkSession table (daily_selections s)
    ∧ Forall (λ c, c ∈ default [] fieldnames) required.
Proof.
  unfold load_csv. case_decide as Hcols; [|done].
  destruct (load_rows _ _ _ _ _ _) as [e|[table count]]; [done|].
  intros [= <- <-]. by exists table.
Qed.

(** X17. [load_csv] is all or nothing.  When it raises, the store is as
    it was; a header without the four required columns (or an empty file)
    raises before any record is read.  When it returns, it has appended
    exactly [count_inserted] rows to [verses]: the rows there were keep their
    place, their keys and their text, and the selections are untouched. *)
Theorem load_csv_all_or_nothing autoflush fieldnames rows s :
  (∀ e s', load_csv py_int autoflush fieldnames rows s = (inl e, s') → s' = s)
  ∧ (¬ Forall (λ c, c ∈ default [] fieldnames) required →
     load_csv py_int autoflush fieldnames rows s = (inl ColumnsMissing, s))
  ∧ (∀ n s', load_csv py_int autoflush fieldnames rows s = (inr n, s') →
             daily_selections s' = daily_selections s
             ∧ ∃ added, verses s' = verses s ++ added ∧ length added = n).
Proof.
  split; [|split].
  - intros e s'. unfold load_csv. case_decide; [|by intros [= _ <-]].
    destruct (load_rows _ _ _ _ _ _) as [e'|[table count]]; [|done].
    by intros [= _ <-].
  - intros Hcols. unfold load_csv. by rewrite decide_False.
  - intros n s' (table & Hload & -> & _)%load_csv_inr. simpl. split; [done|].
    destruct (load_rows_inr _ _ _ _ _ _ _ _ Hload) as (added & -> & Hlen & _).
    exists added. split; [done|]. simpl in Hlen. lia.
Qed.

(** X18. A load that returns keeps the constraints of [verses]: book,
    chapter and verse stay unique together, and so do the primary keys. *)
Theorem load_csv_keeps_constraints autoflush fieldnames rows s n s' :
  load_csv py_int autoflush fieldnames rows s = (inr n, s') →
  (verse_keys_unique s → verse_keys_unique s')
  ∧ (verse_ids_unique s → verse_ids_unique s').
Proof.
  intros (table & Hload & -> & _)%load_csv_inr.
  destruct (load_rows_inr _ _ _ _ _ _ _ _ Hload)
    as (added & -> & _ & _ & Hkeys & Hids & _).
  by split.
Qed.

(** X19. A load that returns has every record of the file in the table:
    each record names a book and two integers, and a verse with that book,
    chapter and verse number is stored afterwards. *)
Theorem load_csv_stores_every_row autoflush fieldnames rows s n s' :
  load_csv py_int autoflush fieldnames rows s = (inr n, s') →
  Forall (row_stored py_int (verses s')) rows.
Proof.
  intros (table & Hload & -> & _)%load_csv_inr.
  by destruct (load_rows_inr _ _ _ _ _ _ _ _ Hload)
    as (added & -> & _ & _ & _ & _ & _ & Hrows).
Qed.

(** X20. Loading a file twice: after a load that returned, loading the
    same file again inserts nothing and leaves the store exactly as it is. *)
Theorem load_csv_again autoflush fieldnames rows s n s' :
  load_csv py_int autoflush fieldnames rows s = (inr n, s') →
  load_csv py_int autoflush fieldnames rows s' = (inr 0%nat, s').
Proof.
  intros (table & Hload & -> & Hcols)%load_csv_inr.
  destruct (load_rows_inr _ _ _ _ _ _ _ _ Hload)
    as (added & -> & _ & _ & _ & _ & _ & Hrows).
  unfold load_csv. rewrite decide_True by done. simpl.
  by rewrite load_rows_skip.
Qed.

End load_csv_facts.

(** ** Exporting the schedule *)

#[global] Instance date_asc_transitive : Transitive date_asc.
Proof. unfold date_asc. intros a b c ??. lia. Qed.

#[global] Instance date_asc_total : Total date_asc.
Proof. unfold date_asc. intros a b. lia. Qed.

Lemma filter_id_singleton vs v :
  NoDup (Verse.id <$> vs) → v ∈ vs →
  filter (λ x, Verse.id x = Verse.id v) vs = [v].
Proof.
  induction vs as [|w vs IH]; intros Hnd Hv.
  - by apply elem_of_nil in Hv.
  - rewrite fmap_cons in Hnd. apply NoDup_cons in Hnd as [Hw Hnd].
    apply elem_of_cons in Hv as [->|Hv].
    + rewrite filter_cons_True by done. f_equal.
      apply (proj1 (head_None _)).
      apply (proj2 (scalar_filter_None (λ x, Verse.id x = Verse.id w) vs)).
      intros x Hx Heq. apply Hw. rewrite <- Heq. by apply list_elem_of_fmap_2.
    + rewrite filter_cons_False; [by apply IH|].
      intros Heq. apply Hw. rewrite Heq. by apply list_elem_of_fmap_2.
Qed.

Lemma elem_of_join_verses s e :
  e ∈ join_verses s ↔
  ∃ r v, r ∈ daily_selections s ∧ v ∈ verses s
         ∧ Verse.id v = DailySelection.verse_id r
         ∧ e = Scheduled.mk (DailySelection.date r) (Verse.book v)
                 (Verse.chapter v) (Verse.verse v) (Verse.text_kjv v).
Proof.
  unfold join_verses. rewrite list_elem_of_bind. split.
  - intros (r & (v & ->%list_elem_of_singleton & Hv)%list_elem_of_bind & Hr).
    apply list_elem_of_filter in Hv as [Hid Hv]. by exists r, v.
  - intros (r & v & Hr & Hv & Hid & ->). exists r. split; [|done].
    apply list_elem_of_bind. exists v. split; [left|].
    by apply list_elem_of_filter.
Qed.

Lemma join_verses_dates s :
  verse_ids_unique s → references_exist s →
  Scheduled.date <$> join_verses s = DailySelection.date <$> daily_selections s.
Proof.
  intros Hpk Href. unfold join_verses, references_exist in *.
  induction (daily_selections s) as [|r rows IH]; [done|].
  rewrite bind_cons, fmap_app.
  rewrite IH; [|intros r' Hr'; apply Href; by right].
  assert (Hr : DailySelection.verse_id r ∈ Verse.id <$> verses s)
    by (apply Href; left).
  apply list_elem_of_fmap in Hr as (v & Hid & Hv).
  unfold select_verse_by_id. rewrite Hid, (filter_id_singleton _ v Hpk Hv).
  done.
Qed.

(** X21. The exported schedule.  The rows [export_csv] writes after the
    header are in ascending date order: they are, in the order written, the
    date, reference and text of a list of entries whose dates ascend.  Each
    row carries the date of a stored selection with the reference, in the
    format of [Verse.ref], and the text of the verse it references.  Where
    verse keys are unique and every selection references a stored verse,
    the dates written are the dates stored and there is exactly one row per
    selection. *)
Theorem export_csv_schedule date_str s :
  Sorted Z.le (Scheduled.date <$> select_schedule s)
  ∧ (∀ line, line ∈ tail (export_csv date_str s) →
       ∃ r v, r ∈ daily_selections s ∧ v ∈ verses s
              ∧ Verse.id v = DailySelection.verse_id r
              ∧ line = [date_str (DailySelection.date r); ref v; Verse.text_kjv v])
  ∧ (verse_ids_unique s → references_exist s →
     Scheduled.date <$> select_schedule s
       ≡ₚ DailySelection.date <$> daily_selections s
     ∧ length (export_csv date_str s) = S (length (daily_selections s)))
  ∧ head (export_csv date_str s) = Some ["date"; "reference"; "kjv"]
  ∧ ∃ entries : list (date * (string * string)),
      tail (export_csv date_str s)
      = (λ en, [date_str en.1; en.2.1; en.2.2]) <$> entries
      ∧ Sorted Z.le (fst <$> entries)
      ∧ (verse_ids_unique s → references_exist s →
         fst <$> entries ≡ₚ DailySelection.date <$> daily_selections s).
Proof.
  assert (Hsorted : Sorted Z.le (Scheduled.date <$> select_schedule s)).
  { apply (Sorted_fmap _ date_asc); [done|]. apply (Sorted_merge_sort _). }
  assert (Hperm : verse_ids_unique s → references_exist s →
                  Scheduled.date <$> select_schedule s
                  ≡ₚ DailySelection.date <$> daily_selections s).
  { intros Hpk Href. unfold select_schedule. rewrite merge_sort_Permutation.
    by rewrite join_verses_dates. }
  split; [done|]. split; [|split; [|split; [done|]]].
  - simpl. intros line (e & -> & He)%list_elem_of_fmap.
    unfold select_schedule in He. rewrite merge_sort_Permutation in He.
    apply elem_of_join_verses in He as (r & v & Hr & Hv & Hid & ->).
    by exists r, v.
  - intros Hpk Href. split; [by apply Hperm|]. simpl. rewrite length_fmap. f_equal.
    pose proof (Hperm Hpk Href) as Hlen.
    apply Permutation_length in Hlen. by rewrite !length_fmap in Hlen.
  - exists ((λ r, (Scheduled.date r,
                   (Scheduled.book r +:+ " " +:+ pretty (Scheduled.chapter r)
                      +:+ ":" +:+ pretty (Scheduled.verse r),
                    Scheduled.text_kjv r)))
            <$> select_schedule s).
    rewrite <- !list_fmap_compose. split; [done|]. split; [done|].
    intros Hpk Href. by apply Hperm.
Qed.

Section export_selections_facts.
Context {G : Type} `{RandomSource G}.

(** X22. What the "Export Daily Selections" button does.  It generates a
    schedule for 36500 days from 1900-01-01 before it exports.  On a store
    where no verse is referenced twice and references are valid, with fewer
    than 36500 verses, it never writes a file: the run ends in the exhaustion
    error, having kept what was stored and having used up every verse that
    was unused. *)
Theorem export_selections_exhausts date_str cfg e s :
  no_repeat s →
  references_exist s →
  Z.of_nat (length (verses s)) < 36500 →
  ∃ s',
    export_selections (G:=G) date_str cfg e s = (Failed Exhausted, None, s')
    ∧ candidates s' = []
    ∧ verses s' = verses s
    ∧ ∃ new, daily_selections s' = daily_selections s ++ new.
Proof.
  intros Hnr Href Hlen. unfold export_selections, schedule_main.
  pose proof (generate_eq cfg e s 693596 36500 false) as Heq.
  pose proof (generate_loop_keeps_invariants 693596 false (py_range 36500)
                (__init__ cfg e s None)) as (Hvs & _).
  destruct (generate_loop_appends 693596 (py_range 36500) (__init__ cfg e s None))
    as (new & Hnew & _).
  destruct (generate_loop 693596 false (py_range 36500) (__init__ cfg e s None))
    as [o self'] eqn:Hloop.
  simpl in Heq, Hvs, Hnew. rewrite Heq. destruct o as [|err|].
  - exfalso.
    assert (Z.to_nat 36500 ≤ length (verses s))%nat; [|lia].
    by apply (generate_Done_bound cfg e s 693596 36500 false (db self')).
  - destruct (generate_loop_failed _ _ _ _ _ _ Hloop) as [-> Hc].
    exists (db self'). eauto.
  - exfalso.
    destruct (generate_loop_overflow _ _ _ _ _ Hloop) as (o & Ho & Hout).
    apply elem_of_seqZ in Ho. unfold date_min, date_max in Hout. lia.
Qed.

End export_selections_facts.

(** ** Extending the catalog *)

Section extend.
Context {G : Type} `{RandomSource G}.
Variable py_int : string → option Z.

(** X23. Extending the catalog ends exhaustion.  On a store with unique
    verse keys and valid references, after a load that inserted at least one
    verse, resolving a date without a selection succeeds; and if every verse
    was used before the load, the verse picked is one of the verses just
    loaded. *)
Theorem load_csv_ends_exhaustion autoflush fieldnames rows s n s' (g : G) d :
  verse_ids_unique s →
  references_exist s →
  load_csv py_int autoflush fieldnames rows s = (inr n, s') →
  (0 < n)%nat →
  existing s' d = None →
  ∃ a, (get_for_date d (mkSelector s' g)).1 = Ok a
       ∧ (candidates s = [] →
          DailySelection.verse_id a ∉ Verse.id <$> verses s).
Proof.
  intros Hpk Href (table & Hload & -> & _)%load_csv_inr Hn Ex.
  destruct (load_rows_inr _ _ _ _ _ _ _ _ Hload)
    as (added & -> & Hlen & _ & _ & Hids & _).
  specialize (Hids Hpk). simpl in Hlen.
  set (s' := mkSession (verses s ++ added) (daily_selections s)) in *.
  assert (Hused : ∀ i, i ∈ used_ids s' → i ∈ Verse.id <$> verses s).
  { intros i (r & Hr & <-)%elem_of_used_ids. by apply Href. }
  assert (Hnew : ∀ v, v ∈ added → Verse.id v ∉ Verse.id <$> verses s).
  { intros v Hv Hin. rewrite fmap_app in Hids.
    apply NoDup_app in Hids as (_ & Hdisj & _).
    apply (Hdisj _ Hin). by apply list_elem_of_fmap_2. }
  assert (Hc : candidates s' ≠ []).
  { destruct added as [|v added]; [simpl in Hlen; lia|].
    intros Hnil.
    assert (Hv : meta_of v ∈ candidates s'); [|by rewrite Hnil in Hv; apply elem_of_nil in Hv].
    apply elem_of_candidates. exists v. split; [done|]. split.
    - simpl. apply elem_of_app. right. left.
    - intros Hu. apply (Hnew v); [left|by apply Hused]. }
  destruct (get_for_date_new (mkSelector s' g) d Ex Hc)
    as (c & v & Hp & Hv & Hid & Hcall).
  simpl in Hcall. rewrite Hcall. simpl. eexists. split; [done|]. simpl.
  intros Hempty.
  apply pool_subseteq, elem_of_candidates in Hp as (v0 & -> & Hv0 & Hun).
  simpl in *. apply elem_of_app in Hv0 as [Hold|Hadd]; [|by apply Hnew].
  exfalso.
  assert (Hin : meta_of v0 ∈ candidates s); [|by rewrite Hempty in Hin; apply elem_of_nil in Hin].
  apply elem_of_candidates. exists v0. by repeat split.
Qed.

End extend.

(** ** The display of the desktop client *)

Lemma display_verse_None now data title :
  display_verse now data title = None
  ↔ json_get "reference" data = None ∨ json_get "kjv" data = None.
Proof.
  unfold display_verse.
  destruct (json_get "reference" data), (json_get "kjv" data);
    split; intros; try done; try tauto; by intuition.
Qed.

Section display.
Context {G : Type} `{RandomSource G}.

(** X24. The desktop client and [GET /verse/today].  Of the answers the
    handler gives, [display_verse] can show all but one: it raises [KeyError]
    exactly on the answer for a day whose stored selection references a verse
    that is no longer in the catalog. *)
Theorem display_verse_today date_str cfg e today s body s1 now title :
  verse_today (G:=G) date_str cfg e today s = (Ok body, s1) →
  display_verse now body title = None
  ↔ ∃ sel, existing s today = Some sel
           ∧ scalar (select_verse_by_id s (DailySelection.verse_id sel)) = None.
Proof.
  intros Hcall. rewrite display_verse_None.
  destruct (existing s today) as [sel|] eqn:Ex.
  - unfold verse_today in Hcall.
    rewrite (get_for_date_existing (__init__ cfg e s None) today sel Ex) in Hcall.
    simpl in Hcall.
    destruct (scalar (select_verse_by_id s _)) as [v|] eqn:Ev;
      injection Hcall as <- <-.
    + split; [by intros [?|?]|]. intros (sel' & [= <-] & ?). congruence.
    + split; [eauto|]. by left.
  - destruct (candidates s) as [|c0 cs] eqn:Ec.
    + unfold verse_today in Hcall.
      by rewrite (get_for_date_exhausted (__init__ cfg e s None) today Ex Ec)
        in Hcall.
    + destruct (verse_today_new_pick date_str cfg e today s Ex) as (v & Hnew).
      { by rewrite Ec. }
      rewrite Hnew in Hcall. injection Hcall as <- <-.
      split; [by intros [?|?]|]. by intros (sel & ? & _).
Qed.

End display.

(** X25. The desktop client and [GET /verse/random]: [display_verse]
    raises [KeyError] on the handler's answer exactly when the catalog is
    empty. *)
Theorem display_verse_random order_by_random s now title :
  (∀ l, order_by_random l ≡ₚ l) →
  display_verse now (verse_random order_by_random s) title = None
  ↔ verses s = [].
Proof.
  intros Hperm. rewrite display_verse_None. unfold verse_random, scalar.
  destruct (order_by_random (verses s)) as [|v l] eqn:Eo; simpl.
  - assert (verses s = []) as ->; [|by split; [|left]].
    apply Permutation_nil_r. by rewrite <- Eo, Hperm.
  - split; [by intros [?|?]|]. intros Hnil.
    assert (Hv : v ∈ verses s) by (rewrite <- (Hperm (verses s)), Eo; left).
    rewrite Hnil in Hv. by apply elem_of_nil in Hv.
Qed.

(** ** The API base URL of the settings dialog *)

Lemma dropwhile_slash_spec l :
  ∃ k, l = replicate k "/"%char ++ dropwhile_slash l
       ∧ head (dropwhile_slash l) ≠ Some "/"%char.
Proof.
  induction l as [|c l (k & Hl & Hhead)]; simpl.
  - by exists 0%nat.
  - case_decide as Hc.
    + subst c. exists (S k). simpl. by rewrite <- Hl.
    + exists 0%nat. split; [done|]. simpl. congruence.
Qed.

Lemma concat_slashes k :
  String.concat "" (replicate (S k) "/")
  = String "/" (String.concat "" (replicate k "/")).
Proof. by destruct k. Qed.

Lemma chars_slashes k :
  String.list_ascii_of_string (String.concat "" (replicate k "/"))
  = replicate k "/"%char.
Proof.
  induction k as [|k IH]; [done|].
  rewrite concat_slashes. simpl. by rewrite IH.
Qed.

(** X26. [save_settings] stores the URL without its trailing slashes:
    [rstrip('/')] removes only ["/"] characters from the end, the result does
    not end with ["/"], and stripping again changes nothing. *)
Theorem rstrip_slash_spec url :
  (∃ k, url = rstrip_slash url +:+ String.concat "" (replicate k "/"))
  ∧ (∀ prefix, rstrip_slash url ≠ prefix +:+ "/")
  ∧ rstrip_slash (rstrip_slash url) = rstrip_slash url.
Proof.
  unfold rstrip_slash.
  destruct (dropwhile_slash_spec (reverse (String.list_ascii_of_string url)))
    as (k & Hl & Hhead).
  set (d := dropwhile_slash (reverse (String.list_ascii_of_string url))) in *.
  assert (Hurl : String.list_ascii_of_string url
                 = reverse d ++ replicate k "/"%char).
  { rewrite <- (reverse_involutive (String.list_ascii_of_string url)), Hl.
    by rewrite reverse_app, reverse_replicate. }
  assert (Hend : ∀ l, reverse d ≠ l ++ ["/"%char]).
  { intros l Heq. apply (f_equal reverse) in Heq.
    rewrite reverse_involutive, reverse_app in Heq. simpl in Heq.
    apply Hhead. by rewrite Heq. }
  split; [|split].
  - exists k. apply chars_inj.
    by rewrite chars_app, String.list_ascii_of_string_of_list_ascii,
      chars_slashes.
  - intros prefix Heq. apply (f_equal String.list_ascii_of_string) in Heq.
    rewrite String.list_ascii_of_string_of_list_ascii, chars_app in Heq.
    by apply (Hend (String.list_ascii_of_string prefix)).
  - rewrite String.list_ascii_of_string_of_list_ascii, reverse_involutive.
    f_equal. f_equal. destruct d as [|c d']; [done|]. simpl.
    rewrite decide_False; [done|]. intros ->. by apply Hhead.
Qed.

(** ** The properties at concrete stores *)

Lemma get_today_distinct_days_witness :
  DailySelection.verse_id (DailySelection.mk 1 base 4)
  ≠ DailySelection.verse_id (DailySelection.mk 2 (base + 1) 1).
Proof.
  apply (get_today_distinct_days test_selector base (base + 1)
           (DailySelection.mk 1 base 4) (get_today base test_selector).2
           (DailySelection.mk 2 (base + 1) 1)
           (get_today (base + 1) (get_today base test_selector).2).2).
  - unfold no_repeat. by_computation.
  - done.
  - by vm_compute.
  - by vm_compute.
Defined.

Lemma ref_inj_witness :
  let v := Verse.mk 4 "Exodus" 1 1 "KJV E1:1" in
  ref v = "Exodus 1:1"
  ∧ Verse.book v = Verse.book v
  ∧ Verse.chapter v = Verse.chapter v
  ∧ Verse.verse v = Verse.verse v.
Proof.
  split; [reflexivity|].
  apply (ref_inj (Verse.mk 4 "Exodus" 1 1 "KJV E1:1")
           (Verse.mk 9 "Exodus" 1 1 "another text")).
  reflexivity.
Defined.

Lemma ref_identifies_verse_witness :
  Verse.mk 4 "Exodus" 1 1 "KJV E1:1" = Verse.mk 4 "Exodus" 1 1 "KJV E1:1".
Proof.
  apply (ref_identifies_verse test_session).
  - unfold verse_keys_unique. by_computation.
  - by_computation.
  - by_computation.
  - reflexivity.
Defined.

Lemma verse_today_stable_witness :
  let first := verse_today (G:=Z) ordinal_str None 1 base test_session in
  verse_today (G:=Z) ordinal_str (Some 5) 2 base first.2
  = (Ok [("date", "738886"); ("reference", "Genesis 1:2"); ("kjv", "KJV G1:2")],
     first.2).
Proof.
  apply (verse_today_stable (G:=Z) ordinal_str None (Some 5) 1 2 base test_session).
  by vm_compute.
Defined.

Lemma verse_today_new_witness :
  ∃ v, v ∈ verses test_session
       ∧ (Verse.id v ∉ used_ids test_session)
       ∧ verse_today (G:=Z) ordinal_str None 1 base test_session
         = (Ok [("date", ordinal_str base); ("reference", ref v);
                ("kjv", Verse.text_kjv v)],
            mkSession (verses test_session)
              (daily_selections test_session
               ++ [DailySelection.mk (next_id (daily_selections test_session))
                     base (Verse.id v)])).
Proof.
  apply (verse_today_new (G:=Z) ordinal_str None 1 base test_session).
  - reflexivity.
  - by vm_compute.
Defined.

Lemma verse_random_answer_witness :
  (verse_random reverse test_session = [("error", "no verses loaded")]
   ↔ verses test_session = [])
  ∧ (verses test_session ≠ [] →
     ∃ v, v ∈ verses test_session
          ∧ verse_random reverse test_session
            = [("reference", ref v); ("kjv", Verse.text_kjv v)]).
Proof.
  apply (verse_random_answer reverse test_session).
  intros l. apply reverse_Permutation.
Defined.

Lemma reset_restores_capacity_witness :
  reset_daily_selections false fallback_session = fallback_session
  ∧ ∃ picks self1,
      get_for_dates [base; base + 1; base + 2]
        (mkSelector (reset_daily_selections true fallback_session) (from_seed 123))
      = (Ok <$> picks, self1)
      ∧ DailySelection.date <$> picks = [base; base + 1; base + 2]
      ∧ NoDup (DailySelection.verse_id <$> picks).
Proof.
  apply (reset_restores_capacity fallback_session (from_seed 123)
           [base; base + 1; base + 2]).
  - unfold verse_ids_unique. by_computation.
  - by_computation.
  - vm_compute. lia.
Defined.

Lemma generate_covers_witness :
  is_Some (existing (generate (G:=Z) None 0 test_session base 3 true).2
             (base + 2)).
Proof.
  apply (generate_covers (G:=Z) None 0 test_session base 3 true).
  - intros _. unfold selection_ids_unique. by_computation.
  - by vm_compute.
  - lia.
Defined.

Lemma generate_capacity_witness :
  (Z.to_nat 3 ≤ length (verses test_session))%nat.
Proof.
  apply (generate_capacity (G:=Z) None 0 test_session base 3 false
           (generate (G:=Z) None 0 test_session base 3 false).2).
  - unfold no_repeat. by_computation.
  - intros r Hr. by apply elem_of_nil in Hr.
  - done.
  - by vm_compute.
Defined.

Lemma generate_again_witness :
  let s' := (generate (G:=Z) None 0 test_session base 3 false).2 in
  generate (G:=Z) (Some 9) 4 s' base 3 false = (Done, s').
Proof.
  apply (generate_again (G:=Z) None 0 (Some 9) 4 test_session base 3).
  by vm_compute.
Defined.

Lemma load_csv_keeps_constraints_witness :
  let s' := (load_csv decimal true (Some required) test_rows test_session).2 in
  (verse_keys_unique test_session → verse_keys_unique s')
  ∧ (verse_ids_unique test_session → verse_ids_unique s').
Proof.
  apply (load_csv_keeps_constraints decimal true (Some required) test_rows
           test_session 1%nat).
  by vm_compute.
Defined.

Lemma load_csv_stores_every_row_witness :
  Forall
    (row_stored decimal
       (verses (load_csv decimal false (Some required) test_rows test_session).2))
    test_rows.
Proof.
  apply (load_csv_stores_every_row decimal false (Some required) test_rows
           test_session 1%nat).
  by vm_compute.
Defined.

Lemma load_csv_again_witness :
  let s' := (load_csv decimal true (Some required) test_rows test_session).2 in
  load_csv decimal true (Some required) test_rows s' = (inr 0%nat, s').
Proof.
  apply (load_csv_again decimal true (Some required) test_rows test_session 1%nat).
  by vm_compute.
Defined.

Lemma export_selections_exhausts_witness :
  ∃ s',
    export_selections (G:=Z) ordinal_str None 0 test_session
    = (Failed Exhausted, None, s')
    ∧ candidates s' = []
    ∧ verses s' = verses test_session
    ∧ ∃ new, daily_selections s' = daily_selections test_session ++ new.
Proof.
  apply (export_selections_exhausts (G:=Z) ordinal_str None 0 test_session).
  - unfold no_repeat. by_computation.
  - intros r Hr. by apply elem_of_nil in Hr.
  - vm_compute. reflexivity.
Defined.

Lemma load_csv_ends_exhaustion_witness :
  let s' := (load_csv decimal true (Some required) test_rows single_session).2 in
  ∃ a, (get_for_date (base + 1) (mkSelector s' (from_seed 123))).1 = Ok a
       ∧ (candidates single_session = [] →
          DailySelection.verse_id a ∉ Verse.id <$> verses single_session).
Proof.
  apply (load_csv_ends_exhaustion (G:=Z) decimal true (Some required) test_rows
           single_session 1%nat).
  - unfold verse_ids_unique. by_computation.
  - unfold references_exist. apply Forall_forall. by_computation.
  - by vm_compute.
  - lia.
  - reflexivity.
Defined.

Lemma display_verse_today_witness :
  display_verse "2024-01-01 08:00:00" [("error", "verse not found")]
    "Today's Verse" = None
  ↔ ∃ sel, existing stale_session base = Some sel
           ∧ scalar (select_verse_by_id stale_session
                       (DailySelection.verse_id sel)) = None.
Proof.
  apply (display_verse_today (G:=Z) ordinal_str None 0 base stale_session
           [("error", "verse not found")] stale_session).
  by vm_compute.
Defined.

Lemma display_verse_random_witness :
  display_verse "2024-01-01 08:00:00"
    (verse_random reverse (clear_all_verses true test_session)) "Random Verse"
  = None
  ↔ verses (clear_all_verses true test_session) = [].
Proof.
  apply (display_verse_random reverse (clear_all_verses true test_session)).
  intros l. apply reverse_Permutation.
Defined.

(** ** The test runner *)

Lemma base_cmd_prefix executable args rest :
  take 3 (base_cmd executable args ++ rest) = [executable; "-m"; "pytest"].
Proof.
  unfold base_cmd.
  by destruct (Args.verbose args), (Args.fast args), (Args.coverage args).
Qed.

(** What holds of the commands run so far and [success]. *)
Lemma run_suite_inv executable args run enabled file acc :
  let P (acc : list (list string) * bool) :=
    (acc.2 = true ↔ Forall (λ cmd, run cmd = true) acc.1)
    ∧ Forall (λ cmd, take 3 cmd = [executable; "-m"; "pytest"]) acc.1 in
  P acc → P (run_suite (base_cmd executable args) run enabled file acc).
Proof.
  simpl. intros [Hiff Hpre]. unfold run_suite. destruct enabled; [|done].
  simpl. split.
  - rewrite Forall_app, Forall_singleton, andb_true_iff. by rewrite Hiff.
  - apply Forall_app. split; [done|]. apply Forall_singleton.
    apply base_cmd_prefix.
Qed.

Lemma run_suite_nonempty base run enabled file acc :
  enabled = true ∨ acc.1 ≠ [] → (run_suite base run enabled file acc).1 ≠ [].
Proof.
  unfold run_suite. destruct enabled; simpl.
  - intros _. by destruct (acc.1).
  - by intros [?|?].
Qed.

Lemma run_tests_main_commands executable run args :
  (Args.all args = true
   ∨ (Args.api args || Args.gui args || Args.database args
      || Args.integration args || Args.selection args) = false →
   (run_tests_main executable run args).1
   = [base_cmd executable args ++ ["tests/"]])
  ∧ (Args.all args = false →
     (Args.api args || Args.gui args || Args.database args
      || Args.integration args || Args.selection args) = true →
     (run_tests_main executable run args).1
     = (if Args.api args
        then [base_cmd executable args ++ ["tests/test_api.py"]] else [])
       ++ (if Args.gui args
           then [base_cmd executable args ++ ["tests/test_gui.py"]] else [])
       ++ (if Args.database args
           then [base_cmd executable args ++ ["tests/test_database.py"]] else [])
       ++ (if Args.integration args
           then [base_cmd executable args ++ ["tests/test_integration.py"]] else [])
       ++ (if Args.selection args
           then [base_cmd executable args ++ ["tests/test_selection.py"]] else [])).
Proof.
  unfold run_tests_main, run_suite.
  destruct (Args.all args), (Args.api args), (Args.gui args),
    (Args.database args), (Args.integration args), (Args.selection args);
    simpl; split; try done; by intros [?|?].
Qed.

(** X27. [run_tests.main] runs at least one suite, goes on to the next
    selected suite after a failure, and exits with status 0 exactly when every
    command it ran succeeded; each command starts with the interpreter and
    [-m pytest].  With [--all], or with no suite selected, the one command
    run is the whole [tests/] directory; otherwise the commands run are
    exactly the selected suites, every one of them, in the order api, gui,
    database, integration, selection, whatever the earlier ones returned. *)
Theorem run_tests_main_status executable run args :
  (run_tests_main executable run args).1 ≠ []
  ∧ ((run_tests_main executable run args).2 = 0
     ↔ Forall (λ cmd, run cmd = true) (run_tests_main executable run args).1)
  ∧ Forall (λ cmd, take 3 cmd = [executable; "-m"; "pytest"])
      (run_tests_main executable run args).1
  ∧ (Args.all args = true
     ∨ (Args.api args || Args.gui args || Args.database args
        || Args.integration args || Args.selection args) = false →
     (run_tests_main executable run args).1
     = [base_cmd executable args ++ ["tests/"]])
  ∧ (Args.all args = false →
     (Args.api args || Args.gui args || Args.database args
      || Args.integration args || Args.selection args) = true →
     (run_tests_main executable run args).1
     = (if Args.api args
        then [base_cmd executable args ++ ["tests/test_api.py"]] else [])
       ++ (if Args.gui args
           then [base_cmd executable args ++ ["tests/test_gui.py"]] else [])
       ++ (if Args.database args
           then [base_cmd executable args ++ ["tests/test_database.py"]] else [])
       ++ (if Args.integration args
           then [base_cmd executable args ++ ["tests/test_integration.py"]] else [])
       ++ (if Args.selection args
           then [base_cmd executable args ++ ["tests/test_selection.py"]] else []))
  ∧ (Args.all args = false →
     (Args.api args = true →
      base_cmd executable args ++ ["tests/test_api.py"]
      ∈ (run_tests_main executable run args).1)
     ∧ (Args.gui args = true →
        base_cmd executable args ++ ["tests/test_gui.py"]
        ∈ (run_tests_main executable run args).1)
     ∧ (Args.database args = true →
        base_cmd executable args ++ ["tests/test_database.py"]
        ∈ (run_tests_main executable run args).1)
     ∧ (Args.integration args = true →
        base_cmd executable args ++ ["tests/test_integration.py"]
        ∈ (run_tests_main executable run args).1)
     ∧ (Args.selection args = true →
        base_cmd executable args ++ ["tests/test_selection.py"]
        ∈ (run_tests_main executable run args).1)).
Proof.
  destruct (run_tests_main_commands executable run args) as [Hall_cmd Hsel_cmd].
  split; [|split; [|split; [|split; [done|split; [done|]]]]].
  4:{ intros Hall.
      repeat split; intros Hflag; rewrite Hsel_cmd by (by rewrite ?Hflag, ?orb_true_r);
        rewrite Hflag; set_solver. }
  all: unfold run_tests_main.
  all: destruct (Args.all args
                 || negb (Args.api args || Args.gui args || Args.database args
                          || Args.integration args || Args.selection args))
         eqn:Hall.
  all: try (simpl; first [ done
                         | rewrite Forall_singleton; by destruct (run _)
                         | apply Forall_singleton; apply base_cmd_prefix ]).
  all: apply orb_false_iff in Hall as [_ Hany]; apply negb_false_iff in Hany.
  all: set (acc0 := ([], true) : list (list string) * bool).
  all: assert (H0 : (acc0.2 = true ↔ Forall (λ cmd, run cmd = true) acc0.1)
                    ∧ Forall (λ cmd, take 3 cmd = [executable; "-m"; "pytest"])
                        acc0.1) by (by split).
  all: apply (run_suite_inv executable args run (Args.api args) "tests/test_api.py")
         in H0.
  all: apply (run_suite_inv executable args run (Args.gui args) "tests/test_gui.py")
         in H0.
  all: apply (run_suite_inv executable args run (Args.database args)
                "tests/test_database.py") in H0.
  all: apply (run_suite_inv executable args run (Args.integration args)
                "tests/test_integration.py") in H0.
  all: apply (run_suite_inv executable args run (Args.selection args)
                "tests/test_selection.py") in H0.
  all: match type of H0 with
       | (?acc.2 = true ↔ _) ∧ _ =>
           assert (Hne : acc.1 ≠ []); [|destruct acc as [commands success]]
       end.
  all: try (repeat (apply run_suite_nonempty;
                    match goal with
                    | |- ?b = true ∨ _ => destruct b eqn:?; [by left|right]
                    end);
            simpl in Hany; by rewrite ?orb_false_r in Hany).
  all: simpl in *; destruct H0 as [Hiff Hpre]; try done.
  rewrite <- Hiff. by destruct success.
Qed.

(** ** Resolving until the catalog is used up, from any store *)

Section any_store.
Context {G : Type} `{RandomSource G}.

(** X28. No repeat, from any store with unique verse keys: resolving as
    many distinct dates without a selection as there are unused verses
    succeeds every time, with pairwise distinct verses none of which was used
    before; after that no verse is unused, and resolving any further date
    without a selection raises the exhaustion error. *)
Theorem resolve_until_exhausted (self : VerseSelector G) ds :
  verse_ids_unique (db self) →
  NoDup ds →
  (∀ d, d ∈ ds → existing (db self) d = None) →
  length ds = length (candidates (db self)) →
  ∃ picks self1,
    get_for_dates ds self = (Ok <$> picks, self1)
    ∧ DailySelection.date <$> picks = ds
    ∧ NoDup (DailySelection.verse_id <$> picks)
    ∧ (∀ a, a ∈ picks → DailySelection.verse_id a ∉ used_ids (db self))
    ∧ candidates (db self1) = []
    ∧ ∀ d, existing (db self1) d = None →
           (get_for_date d self1).1 = Raise Exhausted.
Proof.
  intros Hpk Hnd Hfresh Hlen.
  destruct (get_for_dates_distinct ds self Hpk Hnd Hfresh)
    as (picks & self1 & Hrun & Hdates & Hdist & Hnew & _ & _ & Hcnt); [lia|].
  assert (Hc : candidates (db self1) = []).
  { apply length_zero_iff_nil. lia. }
  exists picks, self1. do 5 (split; [done|]).
  intros d Ex. by rewrite get_for_date_exhausted.
Qed.

End any_store.

Lemma resolve_until_exhausted_witness :
  ∃ picks self1,
    get_for_dates [base + 5; base + 6] (mkSelector backfill_session (from_seed 123))
    = (Ok <$> picks, self1)
    ∧ DailySelection.date <$> picks = [base + 5; base + 6]
    ∧ NoDup (DailySelection.verse_id <$> picks)
    ∧ (∀ a, a ∈ picks →
            DailySelection.verse_id a ∉ used_ids backfill_session)
    ∧ candidates (db self1) = []
    ∧ ∀ d, existing (db self1) d = None →
           (get_for_date d self1).1 = Raise Exhausted.
Proof.
  apply (resolve_until_exhausted (mkSelector backfill_session (from_seed 123))
           [base + 5; base + 6]).
  - unfold verse_ids_unique. by_computation.
  - by_computation.
  - apply Forall_forall. by_computation.
  - reflexivity.
Defined.

(** ** Overwriting a range *)

Section overwrite.
Context {G : Type} `{RandomSource G}.
Implicit Types (self : VerseSelector G).

Lemma schedule_day_keeps_row overwrite target self r :
  selection_ids_unique (db self) →
  r ∈ daily_selections (db self) →
  DailySelection.date r ≠ target →
  r ∈ daily_selections (db (schedule_day overwrite target self).2).
Proof.
  intros Hids Hr Hne.
  destruct (schedule_day overwrite target self) as [res self'] eqn:Hday.
  apply schedule_day_inv in Hday
    as [(_ & _ & _ & ->)|(mid & res' & Hmid & Hg & _)]; [done|].
  simpl.
  assert (Hmid' : r ∈ daily_selections (db mid)).
  { destruct Hmid as [[_ ->]|(_ & row & Hrow & ->)]; [done|].
    apply existing_Some in Hrow as [Hrow Hdate].
    apply delete_commit_keeps_others; auto. congruence. }
  pose proof (get_for_date_prefix mid target) as (_ & new & Hnew & _).
  rewrite Hg in Hnew. simpl in Hnew. rewrite Hnew.
  apply elem_of_app. by left.
Qed.

Lemma generate_loop_keeps_row start overwrite offsets r :
  ∀ self,
    selection_ids_unique (db self) →
    r ∈ daily_selections (db self) →
    (∀ offset, offset ∈ offsets → DailySelection.date r ≠ start + offset) →
    r ∈ daily_selections (db (generate_loop start overwrite offsets self).2).
Proof.
  induction offsets as [|offset offsets IH]; intros self Hids Hr Hout; simpl;
    [done|].
  destruct (date_add start offset) as [target|] eqn:Hadd; [|done].
  apply date_add_Some in Hadd. subst target.
  pose proof (schedule_day_keeps_row overwrite (start + offset) self r Hids Hr)
    as Hkeep.
  pose proof (schedule_day_keeps_invariants overwrite (start + offset) self)
    as (_ & Hids' & _).
  destruct (schedule_day overwrite (start + offset) self) as [[[]|e] self1];
    simpl in *.
  - apply IH; [auto| |].
    + apply Hkeep. apply Hout. left.
    + intros o Ho. apply Hout. by right.
  - apply Hkeep. apply Hout. left.
Qed.

(** X29. [generate] with [overwrite] touches only its range: on a store
    with unique selection keys, every selection stored for a date outside
    [start .. start + days - 1] is still stored, unchanged, however the run
    ends. *)
Theorem generate_overwrite_outside_range cfg e s start days r :
  selection_ids_unique s →
  r ∈ daily_selections s →
  ¬ (start ≤ DailySelection.date r < start + days) →
  r ∈ daily_selections (generate (G:=G) cfg e s start days true).2.
Proof.
  intros Hids Hr Hout. rewrite generate_eq. simpl.
  apply generate_loop_keeps_row; [done|done|].
  intros offset Ho%elem_of_seqZ Heq. lia.
Qed.

End overwrite.

Lemma generate_overwrite_outside_range_witness :
  DailySelection.mk 2 (base + 10) 4
  ∈ daily_selections
      (generate (G:=Z) None 0 backfill_session (base + 4) 3 true).2.
Proof.
  apply (generate_overwrite_outside_range (G:=Z) None 0 backfill_session
           (base + 4) 3 (DailySelection.mk 2 (base + 10) 4)).
  - unfold selection_ids_unique. by_computation.
  - by_computation.
  - simpl. unfold base. lia.
Defined.
